(** * obsidiana: the reporting commands of [obsidiana/_cli.py]

    A shallow embedding of the four commands of the [ob] command line tool
    ([validate-frontmatter], [todo], [tags], [anki]) together with the parts
    of Python, [rich] and [jsonschema] they rely on, and the properties of
    the commands stated in the design document. *)

From Stdlib Require Import String Ascii ZArith List Permutation Sorted Lia.
From Stdlib Require OrderedTypeEx.
From stdpp Require Import base decidable option list sorting gmap sets
  strings lexico pretty.

Local Open Scope string_scope.
Local Open Scope list_scope.

(** ** Python built-ins used by the commands *)

Module py.

(** *** Ordering of [str]

    Python compares strings code point by code point; [String.compare] does
    the same on the characters of a [string]. *)

#[global] Instance string_lexico : Lexico string :=
  fun s t => String.compare s t = Lt.

#[global] Instance string_lexico_trichotomy : TrichotomyT (@lexico string _).
Proof.
  intros s t. unfold lexico, string_lexico.
  destruct (String.compare s t) eqn:E.
  - left; right. by apply String.compare_eq_iff.
  - left; left. reflexivity.
  - right. rewrite String.compare_antisym, E. reflexivity.
Defined.

(** *** [x < y] on keys, as a boolean *)

Definition ltb {K} `{Lexico K, !TrichotomyT (@lexico K _)} (x y : K) : bool :=
  match trichotomyT lexico x y with
  | inleft (left _) => true
  | _ => false
  end.

(** [x <= y], that is [not (y < x)]. *)
Definition le {K} `{Lexico K} (x y : K) : Prop := lexico x y \/ x = y.

(** *** [sorted(iterable, key=key, reverse=reverse)]

    Python's sort is stable and only ever asks whether one key is smaller
    than another.  [insert_sorted] puts [x], which precedes the elements of
    [l] in the input, after the elements that have to go first and before
    everything else, so equal keys keep their input order. *)

Section sorted.
Context {A K : Type} `{Lexico K, !TrichotomyT (@lexico K _)}.
Variable key : A -> K.
Variable reverse : bool.

(** [goes_before y x]: [y] has to be output before [x]. *)
Definition goes_before (y x : A) : bool :=
  if reverse then ltb (key x) (key y) else ltb (key y) (key x).

Fixpoint insert_sorted (x : A) (l : list A) : list A :=
  match l with
  | [] => [x]
  | y :: r => if goes_before y x then y :: insert_sorted x r else x :: y :: r
  end.

Fixpoint sorted (l : list A) : list A :=
  match l with
  | [] => []
  | x :: r => insert_sorted x (sorted r)
  end.

(** The order a sorted list is in: the key of an element is at most the key
    of a later one, or at least with [reverse]. *)
Definition in_order (x y : A) : Prop :=
  if reverse then le (key y) (key x) else le (key x) (key y).

(** The elements whose key compares equal to [k]. *)
Definition same_key (k : K) (x : A) : bool :=
  negb (ltb (key x) k) && negb (ltb k (key x)).
End sorted.

(** The string ["\n"]. *)
Definition newline : string := String (ascii_of_nat 10) EmptyString.

(** *** [sep.join(items)] *)

Definition join (sep : string) (items : list string) : string :=
  String.concat sep items.

(** *** [sub in s] for two strings: [sub] occurs in [s] as a substring *)

Fixpoint startswith (s sub : string) {struct sub} : bool :=
  match sub, s with
  | EmptyString, _ => true
  | String _ _, EmptyString => false
  | String a sub', String b s' => if Ascii.eqb a b then startswith s' sub' else false
  end.

Fixpoint contains (s sub : string) : bool :=
  startswith s sub ||
  match s with
  | EmptyString => false
  | String _ s' => contains s' sub
  end.

(** *** Iterating over a [set]

    A [set] yields each of its members once, in an order that depends on
    their hashes and on the order they were added in; [set_order] gives the
    order for the members in the order they were added.  Nothing more is
    known of it. *)

Class SetOrder (A : Type) : Type := {
  set_order : list A -> list A;
  set_order_members : forall members, set_order members ≡ₚ members
}.

(** *** [str(n)] for a non-negative [int] *)

Definition str_int (n : nat) : string := pretty n.

(** *** [collections.Counter]

    A dict from elements to counts.  A dict keeps its keys in insertion
    order, and [most_common] is a stable sort of the items by decreasing
    count, so the order of the items is part of the model. *)

Definition Counter : Type := list (string * nat).

Definition Counter_new : Counter := [].

(** [self[elem] = self.get(elem, 0) + 1] *)
Fixpoint Counter_incr (c : Counter) (elem : string) : Counter :=
  match c with
  | [] => [(elem, 1)]
  | (k, v) :: r =>
      if String.eqb k elem then (k, S v) :: r else (k, v) :: Counter_incr r elem
  end.

(** [Counter.update(iterable)], the iterable given as the sequence of the
    elements it yields. *)
Definition Counter_update (c : Counter) (iterable : list string) : Counter :=
  fold_left Counter_incr iterable c.

(** [Counter.most_common()]:
    [sorted(self.items(), key=itemgetter(1), reverse=True)]. *)
Definition most_common (c : Counter) : list (string * nat) :=
  sorted snd true c.

(** [Counter.get(elem, 0)] *)
Fixpoint Counter_get (c : Counter) (elem : string) : nat :=
  match c with
  | [] => 0
  | (k, v) :: r => if String.eqb k elem then v else Counter_get r elem
  end.

End py.

(** ** Exceptions *)

Inductive exn : Type :=
  | FileNotFoundError (filename : string)
  | JSONDecodeError (msg : string)
  | SchemaError (msg : string)
  | MarkupError
  | OtherError (msg : string).

Inductive result (A : Type) : Type :=
  | Ok (a : A)
  | Raise (e : exn).

Arguments Ok {A} a.
Arguments Raise {A} e.

(** ** The renderables of [rich] the commands build *)

Module rich.

(** [rich.tree.Tree]: a label and the children added so far. *)
#[warnings="-register-all"] Inductive Tree : Type :=
  | Node (label : string) (children : list Tree).

Definition label (t : Tree) : string := let 'Node l _ := t in l.
Definition children (t : Tree) : list Tree := let 'Node _ c := t in c.

(** [tree.add(...)] appends a child. *)
Definition add (t : Tree) (child : Tree) : Tree :=
  Node (label t) (children t ++ [child]).

Inductive Box : Type := ROUNDED | SIMPLE.

(** [rich.panel.Panel(renderable, box=..., title=..., border_style=...)] *)
Record Panel : Type := mkPanel {
  renderable : string;
  box : Box;
  title : option string;
  border_style : string
}.

Record Column : Type := mkColumn {
  header : string;
  style : string;
  justify : string
}.

Inductive Cell : Type :=
  | CellStr (s : string)
  | CellPanel (p : Panel).

(** [rich.table.Table] *)
Record Table : Type := mkTable {
  table_title : option string;
  show_header : bool;
  columns : list Column;
  rows : list (list Cell)
}.

Definition add_column (t : Table) (c : Column) : Table :=
  mkTable (table_title t) (show_header t) (columns t ++ [c]) (rows t).

Definition add_row (t : Table) (r : list Cell) : Table :=
  mkTable (table_title t) (show_header t) (columns t) (rows t ++ [r]).

Definition row_count (t : Table) : nat := length (rows t).

(** What [Console.print] is given. *)
Inductive Renderable : Type :=
  | RText (s : string)
  | RTree (t : Tree)
  | RPanel (p : Panel)
  | RTable (t : Table).

End rich.

(** ** JSON documents and the validation errors of [jsonschema] *)

Module jsonschema.

(** A JSON value as [json.loads] and the frontmatter loader produce it: the
    mapping keeps its keys in document order. *)
#[warnings="-register-all"] Inductive JSON : Type :=
  | JNull
  | JBool (b : bool)
  | JNumber (z : Z)
  | JString (s : string)
  | JArray (items : list JSON)
  | JObject (members : list (string * JSON)).

(** One step of the path to the offending part of the instance: a property
    name or an array index. *)
Inductive PathElem : Type :=
  | Key (name : string)
  | Index (i : Z).

(** [ValidationError], reduced to what the commands and [relevance] read:
    [str(error)], [error.path], [error.validator] (the failed keyword) and
    [error._matches_type()]. *)
Record ValidationError : Type := mkError {
  str : string;
  path : list PathElem;
  validator : string;
  matches_type : bool
}.

(** Two path steps are compared as Python compares the [str] or [int] they
    are.  Python refuses to order a [str] and an [int]; the two paths of one
    instance never ask for it, since they first differ at two children of the
    same container.  The order puts indices first there. *)
#[global] Instance PathElem_lexico : Lexico PathElem :=
  fun p q =>
    match p, q with
    | Key s, Key t => lexico s t
    | Index i, Index j => lexico i j
    | Index _, Key _ => True
    | Key _, Index _ => False
    end.

#[global] Instance PathElem_lexico_trichotomy : TrichotomyT (@lexico PathElem _).
Proof.
  intros [s|i] [t|j]; unfold lexico, PathElem_lexico.
  - destruct (trichotomyT lexico s t) as [[Hlt|Heq]|Hgt].
    + left; left; exact Hlt.
    + left; right; f_equal; exact Heq.
    + right; exact Hgt.
  - right; exact I.
  - left; left; exact I.
  - destruct (trichotomyT lexico i j) as [[Hlt|Heq]|Hgt].
    + left; left; exact Hlt.
    + left; right; f_equal; exact Heq.
    + right; exact Hgt.
Defined.

Definition WEAK_MATCHES : list string := ["anyOf"; "oneOf"].
Definition STRONG_MATCHES : list string := [].

(** [jsonschema.exceptions.relevance], the key function [by_relevance()]
    returns with the default weak and strong keywords: the tuple
    [(-len(error.path), error.path, validator not in weak,
      validator in strong, not error._matches_type())].
    Python orders tuples, and the paths in them, lexicographically, and
    [False] before [True]. *)
Definition relevance (error : ValidationError)
  : Z * list PathElem * bool * bool * bool :=
  ((- Z.of_nat (length (path error)))%Z,
   path error,
   negb (bool_decide (validator error ∈ WEAK_MATCHES)),
   bool_decide (validator error ∈ STRONG_MATCHES),
   negb (matches_type error)).

End jsonschema.

(** ** The vault and its notes *)

Module vault.
Import jsonschema.

(** The code of [c] is between [lo] and [hi]. *)
Definition between (lo hi : nat) (c : ascii) : bool :=
  (lo <=? nat_of_ascii c)%nat && (nat_of_ascii c <=? hi)%nat.

(** [A-Za-z0-9_] *)
Definition is_word_char (c : ascii) : bool :=
  between 65 90 c || between 97 122 c || between 48 57 c
  || Ascii.eqb c (ascii_of_nat 95).

(** [A-Za-z0-9_/-] *)
Definition is_tag_char (c : ascii) : bool :=
  is_word_char c || Ascii.eqb c (ascii_of_nat 47) || Ascii.eqb c (ascii_of_nat 45).

(** Modelled from the spec: a tag is a hashtag without its [#], one or more
    characters of [A-Za-z0-9_/-]. *)
Definition is_tag (s : string) : bool :=
  match list_ascii_of_string s with
  | [] => false
  | c :: r => forallb is_tag_char (c :: r)
  end.

(** Modelled from the spec: the [Note] class of [obsidiana/vault.py], which
    is not among the sources.  A note is what the commands read of it: its
    path relative to the vault, its frontmatter mapping, its set of tags, its
    body lines and whether it is awaiting triage.  The tags are hashtags of
    the text, so each is of the grammar of tags. *)
Record Note : Type := mkNote {
  subpath : string;
  frontmatter : JSON;
  tags : gset string;
  lines : list string;
  awaiting_triage : bool;
  tags_grammar : forallb is_tag (elements tags) = true
}.

(** Modelled from the spec: the [Vault] class of [obsidiana/vault.py], which
    is not among the sources.  [files] holds the text of the auxiliary files
    under the root by relative name, [notes] the notes in the order the
    traversal yields them. *)
Record Vault : Type := mkVault {
  root : string;
  files : gmap string string;
  notes : list Note
}.

(** Modelled from the spec: [Vault.child], missing with [vault.py]; it
    resolves a name relative to the root and does not look at the disk. *)
Definition child (v : Vault) (name : string) : string := name.

(** [Path.read_text()] on a child of the vault. *)
Definition read_text (v : Vault) (name : string) : result string :=
  match files v !! name with
  | Some text => Ok text
  | None => Raise (FileNotFoundError name)
  end.

(** Modelled from the spec: equality and hash of a [Note], missing with
    [vault.py], look at the subpath only. *)
Definition Note_key (n : Note) : string := subpath n.

End vault.

(** ** Running a command: console, calls to the collaborators, exceptions *)

Module io.
Import rich jsonschema vault.

(** The calls a command makes to the vault and to the validator, in order. *)
Inductive Event : Type :=
  | ReadText (name : string)
  | CheckSchema (schema : JSON)
  | NextNote (note : Note)
  | IterErrors (instance : JSON).

Record World : Type := mkWorld {
  stdout : list Renderable;
  trace : list Event
}.

Definition World_empty : World := mkWorld [] [].

(** A command part: it changes the world and returns or raises. What was
    printed before an exception stays printed. *)
Definition M (A : Type) : Type := World -> World * result A.

#[global] Instance M_ret : MRet M := fun A a w => (w, Ok a).

#[global] Instance M_bind : MBind M := fun A B f m w =>
  match m w with
  | (w', Ok a) => f a w'
  | (w', Raise e) => (w', Raise e)
  end.

Definition lift {A} (r : result A) : M A := fun w => (w, r).

(** The strings of a renderable that the console renders as markup: the
    labels of a tree, the body and the title of a panel, the title, the
    headers and the cells of a table. *)
Fixpoint tree_texts (t : Tree) : list string :=
  match t with
  | Node label children => label :: flat_map tree_texts children
  end.

Definition panel_texts (p : Panel) : list string :=
  renderable p :: match title p with Some t => [t] | None => [] end.

Definition cell_texts (c : Cell) : list string :=
  match c with
  | CellStr s => [s]
  | CellPanel p => panel_texts p
  end.

Definition table_texts (t : Table) : list string :=
  match table_title t with Some s => [s] | None => [] end
  ++ (header <$> columns t)
  ++ flat_map (flat_map cell_texts) (rows t).

Definition texts (r : Renderable) : list string :=
  match r with
  | RText s => [s]
  | RTree t => tree_texts t
  | RPanel p => panel_texts p
  | RTable t => table_texts t
  end.

(** The markup of [rich], which the console [STDOUT] of line 17 has on:
    [markup_ok text] says that [rich.markup.render] returns on a text
    rather than raise [MarkupError], as it does on a closing tag such as
    [[/b]] that closes nothing.  A text without [[] is not looked at any
    further, and the two texts with tags that the commands print close what
    they open. *)
Class Markup : Type := {
  markup_ok : string -> bool;
  markup_plain : forall text, py.contains text "[" = false -> markup_ok text = true;
  markup_invalid_notes : markup_ok "[red]Invalid Notes[/red]" = true;
  markup_all_valid : markup_ok "All notes are [green]valid[/green]." = true
}.

(** The console can render a renderable when all its texts are markup. *)
Definition renders `{Markup} (r : Renderable) : bool :=
  forallb markup_ok (texts r).

(** [STDOUT.print(renderable)]: the renderable is rendered and then written;
    a text of it that is no markup raises, and nothing is written. *)
Definition print `{Markup} (r : Renderable) : M unit :=
  fun w =>
    if renders r
    then (mkWorld (stdout w ++ [r]) (trace w), Ok tt)
    else (w, Raise MarkupError).

Definition call (ev : Event) : M unit :=
  fun w => (mkWorld (stdout w) (trace w ++ [ev]), Ok tt).

(** [for x in l: acc = body(acc, x)] *)
Fixpoint for_each {A S} (body : S -> A -> M S) (l : list A) (acc : S) : M S :=
  match l with
  | [] => mret acc
  | x :: r => acc' ← body acc x; for_each body r acc'
  end.

(** [for note in vault.notes(): ...]: the generator hands over one note
    after the other. *)
Definition for_notes {S} (v : Vault) (body : S -> Note -> M S) (acc : S) : M S :=
  for_each (fun acc note => _ ← call (NextNote note); body acc note)
    (notes v) acc.

(** [json.loads] and the validator classes of [jsonschema], which the
    commands are handed from outside: [validator_for(schema)] picks a class,
    [Validator.check_schema(schema)] returns or raises, and
    [Validator(schema, format_checker=...).iter_errors(instance)] yields the
    errors of an instance, or raises on the way. *)
Class Collaborators : Type := {
  json_loads : string -> result JSON;
  Validator : Type;
  validator_for : JSON -> result Validator;
  check_schema : Validator -> JSON -> result unit;
  iter_errors : Validator -> JSON -> JSON -> result (list ValidationError)
}.

End io.

(** ** The commands of [obsidiana/_cli.py] *)

Module cli.
Import py rich jsonschema vault io.

Section validate_frontmatter.
Context `{Collaborators} `{Markup}.

(** Lines 76 to 85, the body of the loop over the notes.  [tree.add] hands
    back the subtree it has appended, and the leaves are added to that
    subtree; the tree then holds the subtree with all its leaves. *)
Definition validate_note (V : Validator) (schema : JSON)
    (tree : Tree) (note : Note) : M Tree :=
  if awaiting_triage note then mret tree
  else
    _ ← call (IterErrors (frontmatter note));
    found ← lift (iter_errors V schema (frontmatter note));
    let errors := sorted relevance false found in
    match errors with
    | [] => mret tree
    | _ :: _ =>
        let subtree :=
          fold_left (fun subtree error => add subtree (Node (str error) []))
            errors (Node (subpath note) []) in
        mret (add tree subtree)
    end.

Definition validate_frontmatter (vault : Vault) : M unit :=
  _ ← call (ReadText "schema.json");
  text ← lift (read_text vault (child vault "schema.json"));
  schema ← lift (json_loads text);
  V ← lift (validator_for schema);
  _ ← call (CheckSchema schema);
  _ ← lift (check_schema V schema);
  let tree := Node "[red]Invalid Notes[/red]" [] in
  tree ← for_notes vault (validate_note V schema) tree;
  match children tree with
  | _ :: _ => print (RTree tree)
  | [] => print (RText "All notes are [green]valid[/green].")
  end.

End validate_frontmatter.

(** The set [whole_note_todo]: its members in the order they were added.  A
    note is a member by the key it is hashed and compared on. *)
Abbreviation NoteSet := (list Note).

(** [set.add(note)]: a note equal to a member leaves the set as it is. *)
Definition NoteSet_add (s : NoteSet) (note : Note) : NoteSet :=
  if bool_decide (Note_key note ∈ Note_key <$> s) then s else s ++ [note].

(** The members, in the order iterating over the set yields them. *)
Definition NoteSet_iter `{SetOrder Note} (s : NoteSet) : list Note :=
  set_order s.

(** Lines 103 to 109, the body of the loop over the notes. *)
Definition todo_note (acc : NoteSet * Table) (note : Note) : M (NoteSet * Table) :=
  let '(whole_note_todo, tasks_table) := acc in
  let whole_note_todo :=
    if bool_decide ("todo" ∈ tags note) || bool_decide ("todo/now" ∈ tags note)
    then NoteSet_add whole_note_todo note
    else whole_note_todo in
  let tasks := List.filter (fun line => contains line "#todo") (lines note) in
  match tasks with
  | _ :: _ =>
      let panel := mkPanel (join newline tasks) SIMPLE None "none" in
      mret (whole_note_todo,
            add_row tasks_table [CellStr (subpath note); CellPanel panel])
  | [] => mret (whole_note_todo, tasks_table)
  end.

Section listings.
Context `{Markup} `{SetOrder Note}.

Definition todo (vault : Vault) : M unit :=
  let whole_note_todo : NoteSet := [] in
  let tasks_table :=
    mkTable (Some "Tasks") true
      [mkColumn "Note" "" "left"; mkColumn "Task" "" "left"] [] in
  acc ← for_notes vault todo_note (whole_note_todo, tasks_table);
  let '(whole_note_todo, tasks_table) := acc in
  let todo_panel :=
    mkPanel
      (join newline (sorted id false (subpath <$> NoteSet_iter whole_note_todo)))
      ROUNDED (Some "Notes with #todo tags") "cyan" in
  _ ← print (RPanel todo_panel);
  if (0 <? row_count tasks_table)%nat then print (RTable tasks_table)
  else mret tt.

Definition tags (vault : Vault) : M unit :=
  tags ← for_notes vault
    (fun tags note => mret (Counter_update tags (elements (vault.tags note))))
    Counter_new;
  let table := mkTable None true [] [] in
  let table := add_column table (mkColumn "Tag" "bold cyan" "left") in
  let table := add_column table (mkColumn "Note Count" "yellow" "right") in
  let table :=
    fold_left
      (fun table '(tag, count) =>
         add_row table [CellStr tag; CellStr (str_int count)])
      (most_common tags) table in
  print (RTable table).

Definition anki (vault : Vault) : M unit :=
  for_notes vault
    (fun _ note =>
       if bool_decide ("learn/anki" ∈ vault.tags note)
       then print (RText (subpath note))
       else mret tt)
    tt.

End listings.

End cli.

(** ** The note parser and the traversal of the vault *)

Module parser.
Import jsonschema vault.

(** Modelled from the spec: the split of a text into lines, missing with
    [vault.py]: a line ends at ["\n"], ["\r\n"] or ["\r"], the terminator is
    dropped, and no empty line follows a final terminator. *)
Fixpoint splitlines_from (s : string) (line : list ascii) : list string :=
  match s with
  | EmptyString =>
      match line with
      | [] => []
      | _ :: _ => [string_of_list_ascii (rev line)]
      end
  | String c s' =>
      if Ascii.eqb c (ascii_of_nat 10) then
        string_of_list_ascii (rev line) :: splitlines_from s' []
      else if Ascii.eqb c (ascii_of_nat 13) then
        match s' with
        | String d s'' =>
            if Ascii.eqb d (ascii_of_nat 10)
            then string_of_list_ascii (rev line) :: splitlines_from s'' []
            else string_of_list_ascii (rev line) :: splitlines_from s' []
        | EmptyString => string_of_list_ascii (rev line) :: splitlines_from s' []
        end
      else splitlines_from s' (c :: line)
  end.

Definition splitlines (s : string) : list string := splitlines_from s [].

Definition is_hash (c : ascii) : bool := Ascii.eqb c (ascii_of_nat 35).

Definition emit (tag : list ascii) (found : gset string) : gset string :=
  match tag with
  | [] => found
  | _ :: _ => {[ string_of_list_ascii (rev tag) ]} ∪ found
  end.

(** Modelled from the spec: the hashtag scan of the note parser, missing
    with [vault.py]: a [#] not preceded by a word character, followed by one
    or more characters of [A-Za-z0-9_/-]; the tag is the token without the
    [#].  [after_word] says whether the previous character is a word
    character, [tag] holds the token being read, latest character first. *)
Fixpoint hashtags_from (s : string) (after_word : bool)
    (tag : option (list ascii)) : gset string :=
  match s with
  | EmptyString =>
      match tag with
      | Some t => emit t ∅
      | None => ∅
      end
  | String c s' =>
      match tag with
      | Some t =>
          if is_tag_char c then hashtags_from s' (is_word_char c) (Some (c :: t))
          else
            emit t
              (hashtags_from s' (is_word_char c)
                 (if is_hash c && negb after_word then Some [] else None))
      | None =>
          hashtags_from s' (is_word_char c)
            (if is_hash c && negb after_word then Some [] else None)
      end
  end.

Definition hashtags (raw : string) : gset string := hashtags_from raw false None.

(** A token of one or more characters of the grammar is a tag, so the scan
    finds tags only: what a [Note] asks of its set of tags. *)
Definition hashtags_grammar (raw : string) :
  forallb is_tag (elements (hashtags raw)) = true.
Proof.
  assert (forall t, t <> [] -> forallb is_tag_char t = true ->
            is_tag (string_of_list_ascii (rev t)) = true) as Htoken.
  { intros t Ht Hall. unfold is_tag.
    rewrite list_ascii_of_string_of_list_ascii.
    assert (forallb is_tag_char (rev t) = true) as Hrev.
    { apply forallb_forall. intros c Hc. apply in_rev in Hc.
      by apply (proj1 (forallb_forall _ _) Hall). }
    destruct (rev t) as [|c r] eqn:E; [|exact Hrev].
    apply (f_equal (@rev ascii)) in E. rewrite rev_involutive in E. done. }
  assert (forall t found, forallb is_tag_char t = true ->
            set_Forall (fun tag => is_tag tag = true) found ->
            set_Forall (fun tag => is_tag tag = true) (emit t found)) as Hemit.
  { intros [|c t] found Hall Hfound; [exact Hfound|]. cbn [emit].
    apply set_Forall_union; [|exact Hfound].
    apply set_Forall_singleton. by apply Htoken. }
  assert (forall s after_word tag,
            match tag with Some t => forallb is_tag_char t = true | None => True end ->
            set_Forall (fun tag => is_tag tag = true)
              (hashtags_from s after_word tag)) as Hscan.
  { induction s as [|c s IH]; intros after_word tag Htag; cbn [hashtags_from].
    - destruct tag as [t|]; [by apply Hemit|]. by intros tag ?%elem_of_empty.
    - destruct tag as [t|].
      + destruct (is_tag_char c) eqn:Ec.
        * apply IH. cbn [forallb]. by rewrite Ec.
        * apply Hemit; [exact Htag|]. apply IH. by destruct (_ && _).
      + apply IH. by destruct (_ && _). }
  apply forallb_forall. intros tag Htag.
  apply (Hscan raw false None I). apply elem_of_elements.
  by apply list_elem_of_In.
Qed.

(** [try: r  except Exception: handler] *)
Definition try_except {A} (r : result A) (handler : exn -> result A) : result A :=
  match r with
  | Ok a => Ok a
  | Raise e => handler e
  end.

Definition result_bind {A B} (r : result A) (f : A -> result B) : result B :=
  match r with
  | Ok a => f a
  | Raise e => Raise e
  end.

Fixpoint result_map {A B} (f : A -> result B) (l : list A) : result (list B) :=
  match l with
  | [] => Ok []
  | x :: r =>
      result_bind (f x) (fun y =>
      result_bind (result_map f r) (fun ys => Ok (y :: ys)))
  end.

Section parse.
(** The marker line that fences the frontmatter block. *)
Variable marker : string.
(** The loader of the structured text between the markers; it raises on
    text it cannot read and may return a value that is not a mapping. *)
Variable load : list string -> result JSON.
(** The condition on the frontmatter under which a note awaits triage. *)
Variable triage : JSON -> bool.
(** The notes convention: the relative paths that are notes. *)
Variable is_note : string -> bool.

(** The lines up to the first marker line, and the lines after it. *)
Fixpoint until_marker (ls : list string) : option (list string * list string) :=
  match ls with
  | [] => None
  | l :: r =>
      if String.eqb l marker then Some ([], r)
      else
        match until_marker r with
        | Some (block, body) => Some (l :: block, body)
        | None => None
        end
  end.

(** The fenced block at the very start of the text and the body after it,
    if the text starts with one. *)
Definition fenced (ls : list string) : option (list string * list string) :=
  match ls with
  | l :: r => if String.eqb l marker then until_marker r else None
  | [] => None
  end.

Definition as_mapping (j : JSON) : result JSON :=
  match j with
  | JObject members => Ok (JObject members)
  | _ => Raise (OtherError "not a mapping")
  end.

(** Modelled from the spec: [parse] of the note parser, missing with
    [vault.py]: the frontmatter mapping, the body lines and the tags of the
    raw text of a note.  A block that does not load into a mapping leaves
    the frontmatter empty and its lines in the body. *)
Definition parse (raw : string) : result (JSON * list string * gset string) :=
  let ls := splitlines raw in
  let found := hashtags raw in
  match fenced ls with
  | Some (block, body) =>
      try_except
        (result_bind (load block) (fun j =>
         result_bind (as_mapping j) (fun fm => Ok (fm, body, found))))
        (fun _ => Ok (JObject [], ls, found))
  | None => Ok (JObject [], ls, found)
  end.

(** Modelled from the spec: [Vault.notes], missing with [vault.py], over
    the readable files under the root by relative path, in traversal
    order; the tags of a note are the hashtags of its text. *)
Definition notes_of (disk : list (string * string)) : result (list Note) :=
  result_map
    (fun '(name, raw) =>
       result_bind (parse raw) (fun '(fm, body, _) =>
       Ok (mkNote name fm (hashtags raw) body (triage fm) (hashtags_grammar raw))))
    (List.filter (fun '(name, _) => is_note name) disk).

End parse.

End parser.

(** ** What the commands compute, one note at a time *)

Module steps.
Import py rich jsonschema vault io cli.

(** What a command printed, started on an empty console. *)
Definition printed (m : M unit) : list Renderable := stdout (m World_empty).1.

Section console.
Context `{Markup}.

(** What the console has written of the renderables it is given one after
    the other: those before the first it cannot render. *)
Fixpoint written (rs : list Renderable) : list Renderable :=
  match rs with
  | [] => []
  | r :: rest => if renders r then r :: written rest else []
  end.

(** How a run of prints ends. *)
Fixpoint outcome (rs : list Renderable) : result unit :=
  match rs with
  | [] => Ok tt
  | r :: rest => if renders r then outcome rest else Raise MarkupError
  end.


End console.

(** The test of line 103. *)
Definition has_todo_tag (note : Note) : bool :=
  bool_decide ("todo" ∈ vault.tags note) || bool_decide ("todo/now" ∈ vault.tags note).

(** The list [tasks] of line 106. *)
Definition todo_lines (note : Note) : list string :=
  List.filter (fun line => contains line "#todo") (lines note).

Definition collect (s : NoteSet) (note : Note) : NoteSet :=
  if has_todo_tag note then NoteSet_add s note else s.

Definition task_panel (tasks : list string) : Panel :=
  mkPanel (join newline tasks) SIMPLE None "none".

(** The rows a note adds to the table of tasks: one or none. *)
Definition task_rows (note : Note) : list (list Cell) :=
  match todo_lines note with
  | [] => []
  | _ :: _ => [[CellStr (subpath note); CellPanel (task_panel (todo_lines note))]]
  end.

Definition todo_step (acc : NoteSet * Table) (note : Note) : NoteSet * Table :=
  (collect acc.1 note,
   mkTable (table_title acc.2) (show_header acc.2) (columns acc.2)
     (rows acc.2 ++ task_rows note)).

Definition todo_panel (listing : list string) : Panel :=
  mkPanel (join newline listing) ROUNDED (Some "Notes with #todo tags") "cyan".

Definition tasks_columns : list Column :=
  [mkColumn "Note" "" "left"; mkColumn "Task" "" "left"].

(** The subpaths the panel lists and the table of tasks, as [todo] prints
    them. *)
Definition todo_listing `{SetOrder Note} (l : list Note) : list string :=
  sorted id false (subpath <$> NoteSet_iter (fold_left collect l [])).

Definition todo_table (l : list Note) : list Renderable :=
  match flat_map task_rows l with
  | [] => []
  | _ :: _ =>
      [RTable (mkTable (Some "Tasks") true tasks_columns (flat_map task_rows l))]
  end.

(** A line that has [#todo] in it. *)
Definition mentions_todo (line : string) : Prop :=
  exists pre post, line = pre +:+ "#todo" +:+ post.

(** The test of line 149. *)
Definition has_anki_tag (note : Note) : bool :=
  bool_decide ("learn/anki" ∈ vault.tags note).

(** The counter after the loop of lines 129 and 130. *)
Definition count_tags (notes : list Note) (c : Counter) : Counter :=
  fold_left (fun c note => Counter_update c (elements (vault.tags note))) notes c.

(** The number of notes that carry a tag. *)
Definition notes_with (tag : string) (notes : list Note) : nat :=
  length (filter (fun note => tag ∈ vault.tags note) notes).

(** The keys of a counter are distinct and its counts positive. *)
Definition Counter_wf (c : Counter) : Prop :=
  NoDup c.*1 /\ Forall (fun item => 0 < item.2) c.

Definition tags_columns : list Column :=
  [mkColumn "Tag" "bold cyan" "left"; mkColumn "Note Count" "yellow" "right"].

Definition tag_row (item : string * nat) : list Cell :=
  [CellStr item.1; CellStr (str_int item.2)].

(** [x] comes before [y] somewhere in [l]. *)
Definition precedes {A} (x y : A) (l : list A) : Prop :=
  exists l1 l2 l3, l = l1 ++ x :: l2 ++ y :: l3.

(** The leaf of the report tree for one error. *)
Definition error_leaf (error : ValidationError) : Tree := Node (str error) [].

(** The entry of the report for a note and the errors found in it. *)
Definition report_entry (note : Note) (found : list ValidationError) : Tree :=
  Node (subpath note) (error_leaf <$> sorted relevance false found).

(** The part of the trace one note of the loop of [validate_frontmatter]
    adds after the note has been handed over. *)
Definition note_calls (note : Note) : list Event :=
  if awaiting_triage note then [] else [IterErrors (frontmatter note)].

Section report.
Context `{Collaborators}.

(** Lines 69 and 70: the schema passes, or the exception it is refused
    with. *)
Definition schema_check (schema : JSON) : result unit :=
  match validator_for schema with
  | Ok V => check_schema V schema
  | Raise e => Raise e
  end.

Variable V : Validator.
Variable schema : JSON.

(** The tree after one note, or the exception the validator raised. *)
Definition note_result (tree : Tree) (note : Note) : result Tree :=
  if awaiting_triage note then Ok tree
  else
    match iter_errors V schema (frontmatter note) with
    | Raise e => Raise e
    | Ok found =>
        match sorted relevance false found with
        | [] => Ok tree
        | _ :: _ => Ok (add tree (report_entry note found))
        end
    end.

(** The tree after the loop over the notes. *)
Fixpoint loop_result (l : list Note) (tree : Tree) : result Tree :=
  match l with
  | [] => Ok tree
  | note :: r =>
      match note_result tree note with
      | Ok tree' => loop_result r tree'
      | Raise e => Raise e
      end
  end.

(** The calls of the loop over the notes. *)
Fixpoint loop_calls (l : list Note) (tree : Tree) : list Event :=
  match l with
  | [] => []
  | note :: r =>
      NextNote note :: note_calls note ++
      match note_result tree note with
      | Ok tree' => loop_calls r tree'
      | Raise _ => []
      end
  end.
End report.

(** The vault without the notes that await triage. *)
Definition without_triage (v : Vault) : Vault :=
  mkVault (root v) (files v)
    (filter (fun note => awaiting_triage note = false) (notes v)).

End steps.

(** ** A vault to run the commands on *)

Module example.
Import py rich jsonschema vault io cli.

(** *** A reader of console markup

    A tag is what stands between a [[] and the next []]; [[/name]] closes
    the open tag of that name, [[/]] the last one opened, and either has to
    find one.  Names are compared as written, and there are no escapes. *)

(** The tags still open after [[/name]]. *)
Fixpoint close (name : string) (open : list string) : option (list string) :=
  match open with
  | [] => None
  | top :: below =>
      if String.eqb top name then Some below
      else
        match close name below with
        | Some below' => Some (top :: below')
        | None => None
        end
  end.

(** A tag starts with a lower case letter, [#] or [@]; anything else in
    brackets is text. *)
Definition opens (c : ascii) : bool :=
  between 97 122 c || Ascii.eqb c (ascii_of_nat 35) || Ascii.eqb c (ascii_of_nat 64).

Definition tag_step (tag : string) (open : list string) : option (list string) :=
  match tag with
  | EmptyString => Some open
  | String c name =>
      if Ascii.eqb c (ascii_of_nat 47) then
        match name with
        | EmptyString =>
            match open with
            | [] => None
            | _ :: below => Some below
            end
        | String _ _ => close name open
        end
      else if opens c then Some (tag :: open)
      else Some open
  end.

(** [tag] holds the characters read since the last [[], latest first. *)
Fixpoint scan (text : string) (open : list string) (tag : option (list ascii)) : bool :=
  match text with
  | EmptyString => true
  | String c text' =>
      if Ascii.eqb "["%char c then scan text' open (Some [])
      else
        match tag with
        | None => scan text' open None
        | Some t =>
            if Ascii.eqb "]"%char c then
              match tag_step (string_of_list_ascii (rev t)) open with
              | Some open' => scan text' open' None
              | None => false
              end
            else scan text' open (Some (c :: t))
        end
  end.

(** A text without [[] has no tag to read. *)
Definition scan_plain (text : string) :
  contains text "[" = false -> scan text [] None = true.
Proof.
  generalize (@nil string).
  induction text as [|c text IH]; intros open Hplain; [done|].
  cbn [contains startswith] in Hplain. cbn [scan].
  destruct (Ascii.eqb "["%char c).
  - by destruct text.
  - by apply IH.
Qed.

(** A set that yields the members added last first. *)
#[global] Instance last_added_first : SetOrder Note := {|
  set_order := @rev Note;
  set_order_members := fun members => Permutation_sym (Permutation_rev members)
|}.

#[global] Instance markup : Markup := {|
  markup_ok := fun text => scan text [] None;
  markup_plain := scan_plain;
  markup_invalid_notes := eq_refl;
  markup_all_valid := eq_refl
|}.

Definition dq : string := String (ascii_of_nat 34) EmptyString.
Definition q (s : string) : string := dq +:+ s +:+ dq.

(** The text of a [schema.json]: [status] is one of three words, and the
    [owner] of a [project] has a [name]. *)
Definition schema_text : string :=
  "{" +:+ q "properties" +:+ ": {"
  +:+ q "status" +:+ ": {" +:+ q "enum" +:+ ": ["
  +:+ q "todo" +:+ ", " +:+ q "doing" +:+ ", " +:+ q "done" +:+ "]}, "
  +:+ q "project" +:+ ": {" +:+ q "properties" +:+ ": {"
  +:+ q "owner" +:+ ": {" +:+ q "required" +:+ ": [" +:+ q "name" +:+ "]}}}}}".

Definition schema : JSON :=
  JObject
    [("properties",
      JObject
        [("status",
          JObject [("enum", JArray [JString "todo"; JString "doing"; JString "done"])]);
         ("project",
          JObject
            [("properties",
              JObject [("owner", JObject [("required", JArray [JString "name"])])])])])].

(** [json.loads] on the documents used here: the schema above and the
    document [[]]. *)
Definition loads (text : string) : result JSON :=
  if String.eqb text schema_text then Ok schema
  else if String.eqb text "[]" then Ok (JArray [])
  else Raise (JSONDecodeError "Expecting value").

Fixpoint member (name : string) (members : list (string * JSON)) : option JSON :=
  match members with
  | [] => None
  | (k, v) :: r => if String.eqb k name then Some v else member name r
  end.

Definition property (name : string) (j : JSON) : option JSON :=
  match j with
  | JObject members => member name members
  | _ => None
  end.

(** The error of the keyword [enum] under [status]; of [str(error)] the
    first line, the message, is kept. *)
Definition status_errors (instance : JSON) : list ValidationError :=
  match property "status" instance with
  | Some (JString s) =>
      if bool_decide (s ∈ ["todo"; "doing"; "done"]) then []
      else
        [mkError ("'" +:+ s +:+ "' is not one of ['todo', 'doing', 'done']")
           [Key "status"] "enum" false]
  | Some _ =>
      [mkError "value is not one of ['todo', 'doing', 'done']"
         [Key "status"] "enum" false]
  | None => []
  end.

(** The error of the keyword [required] under [project], [owner]. *)
Definition owner_errors (instance : JSON) : list ValidationError :=
  match property "project" instance with
  | Some project =>
      match property "owner" project with
      | Some (JObject members) =>
          match member "name" members with
          | Some _ => []
          | None =>
              [mkError "'name' is a required property"
                 [Key "project"; Key "owner"] "required" false]
          end
      | _ => []
      end
  | None => []
  end.

(** A schema document is an object or a boolean; the validator of the
    schema above reports the errors of its keywords in document order. *)
#[global] Instance collaborators : Collaborators := {|
  json_loads := loads;
  Validator := unit;
  validator_for := fun _ => Ok tt;
  check_schema := fun _ document =>
    match document with
    | JObject _ | JBool _ => Ok tt
    | _ => Raise (SchemaError "the document is not of type 'object', 'boolean'")
    end;
  iter_errors := fun _ _ instance =>
    Ok (status_errors instance ++ owner_errors instance)
|}.

(** A note whose [status] is not one of the three words and whose project
    owner has no name. *)
Definition garden : Note :=
  mkNote "projects/garden.md"
    (JObject
       [("status", JString "maybe");
        ("project", JObject [("owner", JObject [])])])
    {[ "todo"; "learn/anki" ]}
    ["Plant the beans #todo"; "Water daily"; "Buy seeds #todo/now"]
    false eq_refl.

(** A note that awaits triage, with the same frontmatter. *)
Definition inbox : Note :=
  mkNote "inbox/idea.md" (frontmatter garden) {[ "todo/now"; "idea" ]}
    ["An idea"] true eq_refl.

(** A note with nothing to report. *)
Definition recipe : Note :=
  mkNote "b/x.md" (JObject [("status", JString "done")])
    {[ "learn/anki"; "learn/anki/cooking" ]} ["Knead, rest, bake"] false
    eq_refl.

Definition flashcards : Note :=
  mkNote "a/x.md" (JObject [("status", JString "doing")])
    {[ "learn/anki" ]} ["#todos are not tags"] false eq_refl.

Definition reading : Note :=
  mkNote "reading.md" (JObject []) {[ "learn"; "anki" ]} ["Read more"] false
    eq_refl.

Definition the_vault : Vault :=
  mkVault "." {[ "schema.json" := schema_text ]}
    [garden; inbox; recipe; flashcards; reading].

(** The same notes, found in the opposite order. *)
Definition the_vault_reversed : Vault :=
  mkVault "." {[ "schema.json" := schema_text ]} (rev (notes the_vault)).

(** The vault with a schema document that is not a schema. *)
Definition broken_vault : Vault :=
  mkVault "." {[ "schema.json" := "[]" ]} [garden; inbox; recipe].

(** The vault without a schema document. *)
Definition bare_vault : Vault := mkVault "." ∅ [garden; inbox; recipe].

(** A loader for blocks of lines [key: value]; it raises on another line. *)
Fixpoint split_colon (s : string) : option (string * string) :=
  match s with
  | EmptyString => None
  | String c s' =>
      if startswith s ": " then Some ("", String.substring 2 (String.length s') s)
      else
        match split_colon s' with
        | Some (k, v) => Some (String c k, v)
        | None => None
        end
  end.

Fixpoint load_pairs (block : list string) : result (list (string * JSON)) :=
  match block with
  | [] => Ok []
  | line :: r =>
      match split_colon line, load_pairs r with
      | Some (k, v), Ok members => Ok ((k, JString v) :: members)
      | None, _ => Raise (OtherError "could not find expected ':'")
      | _, Raise e => Raise e
      end
  end.

Definition load_block (block : list string) : result JSON :=
  match load_pairs block with
  | Ok members => Ok (JObject members)
  | Raise e => Raise e
  end.

Definition text (ls : list string) : string := join newline ls.

End example.

(** ** The report of [validate_frontmatter] and the vault option *)

Module reports.
Import py rich jsonschema vault io cli steps.

Section entries.
Context `{Collaborators}.
Variable V : Validator.
Variable schema : JSON.

(** The validator returns on the note, if it is asked at all. *)
Definition validates (note : Note) : Prop :=
  awaiting_triage note = true
  \/ exists found, iter_errors V schema (frontmatter note) = Ok found.

(** The list [errors] of line 79 for a note the validator returns on; none
    for a note that is skipped. *)
Definition note_errors (note : Note) : list ValidationError :=
  if awaiting_triage note then []
  else
    match iter_errors V schema (frontmatter note) with
    | Ok found => sorted relevance false found
    | Raise _ => []
    end.

(** The subtrees lines 80 to 85 add for a note: one, or none without
    errors. *)
Definition note_entries (note : Note) : list Tree :=
  match note_errors note with
  | [] => []
  | _ :: _ =>
      [Node (subpath note)
         ((fun error => Node (str error) []) <$> note_errors note)]
  end.
End entries.

(** Lines 87 to 90: the tree if it has children, the message otherwise. *)
Definition report (tree : Tree) : Renderable :=
  match children tree with
  | [] => RText "All notes are [green]valid[/green]."
  | _ :: _ => RTree tree
  end.

(** The calls of a loop over the notes in which the validator returns. *)
Definition calls_for (l : list Note) : list Event :=
  flat_map (fun note => NextNote note :: note_calls note) l.

(** The rows of the tables among what was printed. *)
Definition table_rows (out : list Renderable) : list (list Cell) :=
  flat_map (fun r => match r with RTable t => rows t | _ => [] end) out.

End reports.

(** ** The option [--vault] *)

Module options.
Import vault.

Section options.
(** [Vault(path=Path(value))]: the vault at a path. *)
Variable Vault_at : string -> Vault.

(** [_Vault.convert], lines 27 to 35; the value is a [str] or a [Vault]. *)
Definition convert (value : string + Vault) : Vault :=
  match value with
  | inr v => v
  | inl s => Vault_at s
  end.

(** [default_vault], lines 38 to 43, in an environment; [os.curdir] is
    ["."]. *)
Definition default_vault (environ : gmap string string) : Vault :=
  Vault_at (default "." (environ !! "OBSIDIAN_VAULT")).
End options.

End options.

(** ** More vaults to run the commands on *)

Module example_runs.
Import py rich jsonschema vault io cli example.

(** The notes of the example vault that have nothing to report. *)
Definition tidy_vault : Vault :=
  mkVault "." {[ "schema.json" := schema_text ]}
    [inbox; recipe; flashcards; reading].

(** A vault without a note that carries [todo] or [todo/now]. *)
Definition idle_vault : Vault :=
  mkVault "." ∅ [recipe; flashcards; reading].

(** The vault with a [schema.json] that is not JSON. *)
Definition garbled_vault : Vault :=
  mkVault "." {[ "schema.json" := "{" ]} [garden; inbox; recipe].

(** A schema whose property [link] refers to a document that is not there:
    the validator raises when it gets to a [link]. *)
Definition link_schema_text : string :=
  "{" +:+ q "properties" +:+ ": {" +:+ q "link" +:+ ": {"
  +:+ q "$ref" +:+ ": " +:+ q "missing.json" +:+ "}}}".

Definition link_schema : JSON :=
  JObject
    [("properties",
      JObject [("link", JObject [("$ref", JString "missing.json")])])].

Definition link_collaborators : Collaborators := {|
  json_loads := fun text =>
    if String.eqb text link_schema_text then Ok link_schema
    else Raise (JSONDecodeError "Expecting value");
  Validator := unit;
  validator_for := fun _ => Ok tt;
  check_schema := fun _ document =>
    match document with
    | JObject _ | JBool _ => Ok tt
    | _ => Raise (SchemaError "the document is not of type 'object', 'boolean'")
    end;
  iter_errors := fun _ _ instance =>
    match property "link" instance with
    | Some _ => Raise (OtherError "Unresolvable: missing.json")
    | None => Ok []
    end
|}.

Definition linked : Note :=
  mkNote "linked.md" (JObject [("link", JString "elsewhere")]) ∅
    ["See elsewhere"] false eq_refl.

Definition link_vault : Vault :=
  mkVault "." {[ "schema.json" := link_schema_text ]} [recipe; linked; garden].

(** A note whose file name has a closing tag of the console markup in it,
    and a line with one. *)
Definition bracketed : Note :=
  mkNote "x[/y].md" (JObject [("status", JString "done")])
    {[ "learn/anki"; "todo" ]} ["see [/b] #todo"] false eq_refl.

Definition bracket_vault : Vault :=
  mkVault "." {[ "schema.json" := schema_text ]} [flashcards; bracketed; recipe].

(** A note with a closing tag of the console markup in its [status] and in
    a line of its body. *)
Definition margin : Note :=
  mkNote "margin.md" (JObject [("status", JString "x[/b]")]) ∅
    ["see [/b] #todo"] false eq_refl.

Definition margin_vault : Vault :=
  mkVault "." {[ "schema.json" := schema_text ]} [recipe; margin].

(** The vault at a path, for the option [--vault]: no files, no notes. *)
Definition empty_vault_at (path : string) : Vault := mkVault path ∅ [].

End example_runs.

(** * Properties *)

(** ** The Python built-ins *)

Section py_facts.
Import py.

Lemma string_lexico_lts (s t : string) :
  lexico s t <-> OrderedTypeEx.String_as_OT.lt s t.
Proof. apply OrderedTypeEx.String_as_OT.cmp_lt. Qed.

#[global] Instance string_lexico_po : StrictOrder (@lexico string _).
Proof.
  split.
  - intros s Hs. apply string_lexico_lts in Hs.
    by apply (OrderedTypeEx.String_as_OT.lt_not_eq s s Hs).
  - intros s t u Hst Htu. apply string_lexico_lts.
    apply string_lexico_lts in Hst, Htu.
    exact (OrderedTypeEx.String_as_OT.lt_trans s t u Hst Htu).
Qed.

Context {K : Type} `{Lexico K, !TrichotomyT (@lexico K _),
  !StrictOrder (@lexico K _)}.

Lemma ltb_lexico (x y : K) : ltb x y = true <-> lexico x y.
Proof.
  unfold ltb. destruct (trichotomyT lexico x y) as [[Hlt|Heq]|Hgt].
  - tauto.
  - subst. split; [discriminate|]. intros Hxx.
    by destruct (irreflexivity lexico y).
  - split; [discriminate|]. intros Hxy.
    destruct (irreflexivity lexico x). by etrans.
Qed.

Lemma ltb_false_le (x y : K) : ltb x y = false <-> le y x.
Proof.
  unfold ltb, le. destruct (trichotomyT lexico x y) as [[Hlt|Heq]|Hgt].
  - split; [discriminate|]. intros [Hyx| ->].
    + destruct (irreflexivity lexico x). by etrans.
    + by destruct (irreflexivity lexico x).
  - subst. tauto.
  - tauto.
Qed.

Lemma ltb_true_le (x y : K) : ltb x y = true -> le x y.
Proof. intros Hlt. left. by apply ltb_lexico. Qed.

#[global] Instance le_trans : Transitive (@le K _).
Proof.
  intros x y z [Hxy| ->] [Hyz| ->]; unfold le; auto.
  left. by etrans.
Qed.

#[global] Instance le_refl : Reflexive (@le K _).
Proof. intros x. by right. Qed.

#[global] Instance le_antisym : AntiSymm (=) (@le K _).
Proof.
  intros x y [Hxy| ->] [Hyx|Heq]; auto.
  destruct (irreflexivity lexico x). by etrans.
Qed.

Context {A : Type} (key : A -> K) (reverse : bool).

#[global] Instance in_order_trans : Transitive (in_order key reverse).
Proof.
  unfold in_order. intros x y z. destruct reverse; intros Hxy Hyz.
  - by trans (key y).
  - by trans (key y).
Qed.

Lemma goes_before_in_order (y x : A) :
  goes_before key reverse y x = true -> in_order key reverse y x.
Proof.
  unfold goes_before, in_order. destruct reverse; apply ltb_true_le.
Qed.

Lemma not_goes_before_in_order (y x : A) :
  goes_before key reverse y x = false -> in_order key reverse x y.
Proof.
  unfold goes_before, in_order. destruct reverse; apply ltb_false_le.
Qed.

Lemma insert_sorted_Permutation (x : A) (l : list A) :
  insert_sorted key reverse x l ≡ₚ x :: l.
Proof.
  induction l as [|y r IH]; simpl; [done|].
  destruct (goes_before key reverse y x); [|done].
  rewrite IH. apply Permutation_swap.
Qed.

Lemma sorted_Permutation (l : list A) : sorted key reverse l ≡ₚ l.
Proof.
  induction l as [|x r IH]; simpl; [done|].
  by rewrite insert_sorted_Permutation, IH.
Qed.

Lemma insert_sorted_StronglySorted (x : A) (l : list A) :
  StronglySorted (in_order key reverse) l ->
  StronglySorted (in_order key reverse) (insert_sorted key reverse x l).
Proof.
  induction 1 as [|y r Hr IH Hy]; simpl.
  - repeat constructor.
  - destruct (goes_before key reverse y x) eqn:E.
    + constructor; [done|].
      rewrite insert_sorted_Permutation. constructor; [|done].
      by apply goes_before_in_order.
    + apply not_goes_before_in_order in E.
      constructor; [by constructor|].
      constructor; [done|].
      eapply Forall_impl; [exact Hy|]. intros z Hz. by trans y.
Qed.

Lemma sorted_StronglySorted (l : list A) :
  StronglySorted (in_order key reverse) (sorted key reverse l).
Proof.
  induction l as [|x r IH]; simpl; [constructor|].
  by apply insert_sorted_StronglySorted.
Qed.

Lemma same_key_eq (k : K) (x : A) : same_key key k x = true <-> key x = k.
Proof.
  unfold same_key. rewrite andb_true_iff, !negb_true_iff, !ltb_false_le.
  split.
  - intros [H1 H2]. by apply (anti_symm le).
  - intros ->. split; reflexivity.
Qed.

Lemma insert_sorted_stable (k : K) (x : A) (l : list A) :
  List.filter (same_key key k) (insert_sorted key reverse x l)
  = List.filter (same_key key k) (x :: l).
Proof.
  induction l as [|y r IH]; [done|].
  cbn [insert_sorted]. destruct (goes_before key reverse y x) eqn:E; [|done].
  cbn [List.filter] in *. rewrite IH.
  destruct (same_key key k x) eqn:Ex, (same_key key k y) eqn:Ey; try done.
  apply same_key_eq in Ex, Ey.
  unfold goes_before in E. rewrite Ex, Ey in E.
  assert (lexico k k) as Hkk by (destruct reverse; by apply ltb_lexico).
  by destruct (irreflexivity lexico k).
Qed.

(** The sort is stable: the elements of one key keep their order. *)
Lemma sorted_stable (k : K) (l : list A) :
  List.filter (same_key key k) (sorted key reverse l) = List.filter (same_key key k) l.
Proof.
  induction l as [|x r IH]; [done|].
  cbn [sorted]. rewrite insert_sorted_stable. cbn [List.filter].
  by rewrite IH.
Qed.

End py_facts.

Section py_str_facts.
Import py.






End py_str_facts.

(** ** Loops over the notes *)

Section io_facts.
Import py rich jsonschema vault io cli steps.

Lemma for_each_cons {A S} (body : S -> A -> M S) (x : A) (r : list A)
    (acc : S) (w : World) :
  for_each body (x :: r) acc w
  = match body acc x w with
    | (w', Ok acc') => for_each body r acc' w'
    | (w', Raise e) => (w', Raise e)
    end.
Proof. reflexivity. Qed.

Lemma next_note_then {S} (body : S -> Note -> M S) (acc : S) (note : Note)
    (w : World) :
  (_ ← call (NextNote note); body acc note) w
  = body acc note (mkWorld (stdout w) (trace w ++ [NextNote note])).
Proof. reflexivity. Qed.

Lemma for_notes_pure {S} (f : S -> Note -> S) (body : S -> Note -> M S)
    (v : Vault) (acc : S) (w : World) :
  (forall acc x, body acc x = mret (f acc x)) ->
  for_notes v body acc w
  = (mkWorld (stdout w) (trace w ++ (NextNote <$> notes v)),
     Ok (fold_left f (notes v) acc)).
Proof.
  intros Hbody. unfold for_notes. destruct w as [out tr].
  generalize (notes v). intros l. revert acc tr.
  induction l as [|x r IH]; intros acc tr.
  - simpl. by rewrite app_nil_r.
  - rewrite for_each_cons, next_note_then, Hbody.
    unfold mret at 1, M_ret at 1. cbn [stdout trace].
    rewrite IH. cbn [fold_left fmap list_fmap stdout trace].
    by rewrite <- app_assoc.
Qed.

End io_facts.

(** ** The console *)

Section console_facts.
Import py rich jsonschema vault io cli steps.

(** A text has [[] as a substring exactly when one of its characters is
    one. *)
Lemma contains_bracket (s : string) :
  contains s "[" = existsb (Ascii.eqb "["%char) (list_ascii_of_string s).
Proof.
  induction s as [|c s IH]; [done|].
  cbn [contains startswith list_ascii_of_string existsb]. rewrite IH.
  by destruct (Ascii.eqb "["%char c).
Qed.

Lemma is_tag_char_plain (c : ascii) :
  is_tag_char c = true -> Ascii.eqb "["%char c = false.
Proof.
  intros Hc. destruct (Ascii.eqb_spec "["%char c) as [<-|]; [|done].
  by vm_compute in Hc.
Qed.

Lemma is_tag_plain (s : string) : is_tag s = true -> contains s "[" = false.
Proof.
  unfold is_tag. rewrite contains_bracket.
  destruct (list_ascii_of_string s) as [|c r]; [done|].
  generalize (c :: r). clear. intros l Hall.
  induction l as [|c l IH]; [done|].
  cbn [forallb existsb] in *. apply andb_true_iff in Hall.
  destruct Hall as [Hc Hl]. by rewrite is_tag_char_plain, IH.
Qed.

Lemma pretty_N_go_plain (x : N) (s : string) :
  contains s "[" = false -> contains (pretty_N_go x s) "[" = false.
Proof.
  revert s. induction (N.lt_wf_0 x) as [x _ IH]; intros s Hs.
  assert (x = 0 \/ 0 < x)%N as [->|Hpos] by lia.
  - by rewrite pretty_N_go_0.
  - rewrite pretty_N_go_step by done. apply IH.
    { by apply N.div_lt. }
    cbn [contains startswith]. rewrite Hs.
    unfold pretty_N_char. by repeat case_match.
Qed.

Lemma str_int_plain (n : nat) : contains (str_int n) "[" = false.
Proof.
  unfold str_int, pretty, pretty_nat, pretty, pretty_N.
  case_decide; [done|]. by apply pretty_N_go_plain.
Qed.

Lemma tags_plain (note : Note) (tag : string) :
  tag ∈ vault.tags note -> contains tag "[" = false.
Proof.
  intros Htag. apply is_tag_plain.
  apply (proj1 (forallb_forall _ _) (tags_grammar note)).
  by apply list_elem_of_In, elem_of_elements.
Qed.

Context `{Markup}.

Lemma print_renders (r : Renderable) (w : World) :
  renders r = true ->
  print r w = (mkWorld (stdout w ++ [r]) (trace w), Ok tt).
Proof. intros Hr. unfold print. by rewrite Hr. Qed.

Lemma print_raises (r : Renderable) (w : World) :
  renders r = false -> print r w = (w, Raise MarkupError).
Proof. intros Hr. unfold print. by rewrite Hr. Qed.

Lemma renders_text (s : string) : renders (RText s) = markup_ok s.
Proof. unfold renders. cbn [texts forallb]. apply andb_true_r. Qed.

Lemma renders_todo_panel (listing : list string) :
  renders (RPanel (todo_panel listing)) = markup_ok (join newline listing).
Proof.
  unfold renders, todo_panel. cbn [texts panel_texts renderable title forallb].
  rewrite (markup_plain "Notes with #todo tags") by done.
  by rewrite !andb_true_r.
Qed.

Lemma written_subseteq (rs : list Renderable) (r : Renderable) :
  r ∈ written rs -> r ∈ rs.
Proof.
  induction rs as [|x rs IH]; cbn [written]; [done|].
  destruct (renders x); [|by intros ?%elem_of_nil].
  intros [->|Hin]%elem_of_cons; [left|right; by apply IH].
Qed.




Lemma outcome_cases (rs : list Renderable) :
  outcome rs = Ok tt \/ outcome rs = Raise MarkupError.
Proof.
  induction rs as [|r rs IH]; cbn [outcome]; [by left|].
  destruct (renders r); [exact IH|by right].
Qed.



(** A run of prints, one renderable after the other. *)
Lemma print_written (r : Renderable) (w : World) :
  print r w = (mkWorld (stdout w ++ written [r]) (trace w), outcome [r]).
Proof.
  unfold print. cbn [written outcome]. destruct (renders r); [done|].
  destruct w. cbn [stdout trace]. by rewrite app_nil_r.
Qed.

End console_facts.

(** ** [anki] *)

Section anki_facts.
Import py rich jsonschema vault io cli steps.
Context `{Markup}.







End anki_facts.

(** ** [todo] *)

Section todo_facts.
Import py rich jsonschema vault io cli steps.
Context `{Markup} `{SetOrder Note}.

Lemma todo_note_pure (acc : NoteSet * Table) (note : Note) :
  todo_note acc note = mret (todo_step acc note).
Proof.
  destruct acc as [s [title hdr cols rws]].
  unfold todo_note, todo_step, collect, has_todo_tag, task_rows, todo_lines,
    task_panel, add_row.
  cbn [fst snd table_title show_header columns rows].
  destruct (List.filter _ (lines note)); [|done].
  by rewrite app_nil_r.
Qed.

Lemma todo_fold (l : list Note) (s : NoteSet) (t : Table) :
  fold_left todo_step l (s, t)
  = (fold_left collect l s,
     mkTable (table_title t) (show_header t) (columns t)
       (rows t ++ flat_map task_rows l)).
Proof.
  revert s t. induction l as [|x r IH]; intros s [title hdr cols rws].
  - simpl. by rewrite app_nil_r.
  - cbn [fold_left flat_map]. unfold todo_step at 2.
    cbn [fst snd table_title show_header columns rows].
    rewrite IH. cbn [table_title show_header columns rows].
    by rewrite <- app_assoc.
Qed.

Lemma todo_prints (v : Vault) (w : World) :
  todo v w
  = (_ ← print (RPanel (todo_panel (todo_listing (notes v))));
     match flat_map task_rows (notes v) with
     | [] => mret tt
     | _ :: _ =>
         print (RTable (mkTable (Some "Tasks") true tasks_columns
                          (flat_map task_rows (notes v))))
     end)
    (mkWorld (stdout w) (trace w ++ (NextNote <$> notes v))).
Proof.
  unfold todo. unfold mbind at 1, M_bind at 1.
  rewrite (for_notes_pure todo_step) by apply todo_note_pure.
  rewrite todo_fold.
  cbn [table_title show_header columns rows app].
  unfold row_count, todo_listing, todo_panel, tasks_columns. cbn [rows].
  by destruct (flat_map task_rows (notes v)).
Qed.

Lemma todo_run (v : Vault) (w : World) :
  todo v w
  = (mkWorld
       (stdout w
        ++ written (RPanel (todo_panel (todo_listing (notes v)))
                      :: todo_table (notes v)))
       (trace w ++ (NextNote <$> notes v)),
     outcome (RPanel (todo_panel (todo_listing (notes v)))
                :: todo_table (notes v))).
Proof.
  rewrite todo_prints. unfold mbind, M_bind, todo_table.
  cbn [written outcome]. unfold print at 1.
  destruct (renders (RPanel _)); cbn [stdout trace].
  - destruct (flat_map task_rows (notes v)) as [|row rws].
    + done.
    + rewrite print_written. cbn [stdout trace]. by rewrite <- app_assoc.
  - by rewrite app_nil_r.
Qed.

Lemma collect_keys (s : NoteSet) (note : Note) (k : string) :
  k ∈ subpath <$> collect s note
  <-> k ∈ subpath <$> s \/ (has_todo_tag note = true /\ subpath note = k).
Proof.
  unfold collect, NoteSet_add, Note_key.
  destruct (has_todo_tag note).
  - case_bool_decide as Hin.
    + split; [by left|]. intros [?|[_ <-]]; done.
    + rewrite fmap_app, elem_of_app. cbn [fmap list_fmap].
      rewrite list_elem_of_singleton. split.
      * intros [?|Hk]; [by left|right; by subst k].
      * intros [?|[_ Hk]]; [by left|right; by subst k].
  - split; [by left|]. by intros [?|[? _]].
Qed.


Lemma fold_collect_keys (l : list Note) (s : NoteSet) (k : string) :
  k ∈ subpath <$> fold_left collect l s
  <-> k ∈ subpath <$> s
      \/ exists note, note ∈ l /\ has_todo_tag note = true /\ subpath note = k.
Proof.
  revert s. induction l as [|x r IH]; intros s.
  - simpl. split; [by left|]. intros [?|(n & Hn & _)]; [done|].
    by apply elem_of_nil in Hn.
  - cbn [fold_left]. rewrite IH, collect_keys. split.
    + intros [[?|[Hx Hk]]|(n & Hn & Hp & Hk)].
      * by left.
      * right. exists x. split; [left|done].
      * right. exists n. split; [by right|done].
    + intros [?|(n & Hn & Hp & Hk)]; [by left; left|].
      apply elem_of_cons in Hn. destruct Hn as [->|Hn].
      * left; right. done.
      * right. by exists n.
Qed.


(** Whatever the order the set is iterated in, the listing has its
    members. *)
Lemma todo_listing_Permutation (l : list Note) :
  todo_listing l ≡ₚ subpath <$> fold_left collect l [].
Proof.
  unfold todo_listing, NoteSet_iter.
  by rewrite sorted_Permutation, set_order_members.
Qed.


Lemma has_todo_tag_spec (note : Note) :
  has_todo_tag note = true
  <-> "todo" ∈ vault.tags note \/ "todo/now" ∈ vault.tags note.
Proof.
  unfold has_todo_tag. by rewrite orb_true_iff, !bool_decide_eq_true.
Qed.

Lemma todo_listing_elem_of (l : list Note) (s : string) :
  s ∈ todo_listing l
  <-> exists note, note ∈ l /\ subpath note = s
        /\ ("todo" ∈ vault.tags note \/ "todo/now" ∈ vault.tags note).
Proof.
  rewrite todo_listing_Permutation, fold_collect_keys. split.
  - intros [?%elem_of_nil|(note & Hin & Htag & Hk)]; [done|].
    exists note. by rewrite <- has_todo_tag_spec.
  - intros (note & Hin & Hk & Htag). right. exists note.
    by rewrite has_todo_tag_spec.
Qed.

End todo_facts.

Section todo_claims.
Import py rich jsonschema vault io cli steps.
Context `{Markup} `{SetOrder Note}.






Lemma StronglySorted_weaken {A} (R1 R2 : relation A) (l : list A) :
  (forall x y, R1 x y -> R2 x y) ->
  StronglySorted R1 l -> StronglySorted R2 l.
Proof.
  intros Himpl. induction 1 as [|x r Hr IH Hx]; constructor; [done|].
  eapply Forall_impl; [exact Hx|]. intros y. apply Himpl.
Qed.





End todo_claims.

(** ** [tags] *)

Section tags_facts.
Import py rich jsonschema vault io cli steps.
Context `{Markup}.

Lemma Counter_get_incr (c : Counter) (elem k : string) :
  Counter_get (Counter_incr c elem) k
  = Counter_get c k + (if decide (elem = k) then 1 else 0).
Proof.
  induction c as [|[k' n] r IH]; cbn [Counter_incr Counter_get].
  - destruct (String.eqb_spec elem k), (decide (elem = k)); done.
  - destruct (String.eqb_spec k' elem) as [->|Hne]; cbn [Counter_get].
    + destruct (String.eqb_spec elem k), (decide (elem = k)); try done; lia.
    + rewrite IH. destruct (String.eqb_spec k' k); [|done].
      subst. rewrite decide_False by done. lia.
Qed.

Lemma Counter_incr_keys (c : Counter) (elem k : string) :
  k ∈ (Counter_incr c elem).*1 <-> k = elem \/ k ∈ c.*1.
Proof.
  induction c as [|[k' n] r IH]; cbn [Counter_incr].
  - simpl. rewrite list_elem_of_singleton. split; [by left|].
    intros [?|?%elem_of_nil]; done.
  - destruct (String.eqb_spec k' elem) as [->|Hne]; cbn [fmap list_fmap fst].
    + rewrite elem_of_cons. tauto.
    + rewrite !elem_of_cons, IH. tauto.
Qed.

Lemma Counter_incr_wf (c : Counter) (elem : string) :
  Counter_wf c -> Counter_wf (Counter_incr c elem).
Proof.
  unfold Counter_wf.
  induction c as [|[k' n] r IH]; cbn [Counter_incr]; intros [Hnd Hpos].
  - split; [apply NoDup_singleton|]. repeat constructor.
  - cbn [fmap list_fmap fst] in Hnd.
    apply NoDup_cons in Hnd. destruct Hnd as [Hk' Hnd].
    apply Forall_cons in Hpos. destruct Hpos as [Hn Hpos].
    destruct (String.eqb_spec k' elem) as [->|Hne]; cbn [fmap list_fmap fst].
    + split; [by apply NoDup_cons|]. constructor; [simpl; lia|done].
    + destruct (IH (conj Hnd Hpos)) as [Hnd' Hpos'].
      split; [|by constructor].
      apply NoDup_cons. split; [|done].
      rewrite Counter_incr_keys. intros [?|?]; done.
Qed.

Lemma Counter_wf_get (c : Counter) (k : string) (n : nat) :
  Counter_wf c -> (k, n) ∈ c -> Counter_get c k = n /\ 0 < n.
Proof.
  unfold Counter_wf.
  induction c as [|[k' n'] r IH]; intros [Hnd Hpos] Hin.
  - by apply elem_of_nil in Hin.
  - cbn [fmap list_fmap fst] in Hnd.
    apply NoDup_cons in Hnd. destruct Hnd as [Hk' Hnd].
    apply Forall_cons in Hpos. destruct Hpos as [Hn Hpos].
    apply elem_of_cons in Hin. cbn [Counter_get].
    destruct Hin as [[= -> ->]|Hin].
    + by rewrite String.eqb_refl.
    + destruct (String.eqb_spec k' k) as [->|Hne]; [|by apply IH].
      destruct Hk'. apply list_elem_of_fmap. by exists (k, n).
Qed.

Lemma Counter_wf_keys (c : Counter) (k : string) :
  Counter_wf c -> k ∈ c.*1 <-> 0 < Counter_get c k.
Proof.
  intros Hwf. split.
  - intros ([k' n] & -> & Hin)%list_elem_of_fmap. simpl.
    destruct (Counter_wf_get _ _ _ Hwf Hin) as [-> Hpos]. done.
  - clear Hwf. induction c as [|[k' n'] r IH]; cbn [Counter_get]; [lia|].
    cbn [fmap list_fmap fst]. rewrite elem_of_cons.
    destruct (String.eqb_spec k' k) as [->|Hne]; [by left|].
    intros Hpos. right. by apply IH.
Qed.

Lemma Counter_update_wf (c : Counter) (l : list string) :
  Counter_wf c -> Counter_wf (Counter_update c l).
Proof.
  unfold Counter_update. revert c.
  induction l as [|x r IH]; intros c Hwf; [done|].
  cbn [fold_left]. by apply IH, Counter_incr_wf.
Qed.

Lemma Counter_get_update (c : Counter) (l : list string) (k : string) :
  NoDup l ->
  Counter_get (Counter_update c l) k
  = Counter_get c k + (if decide (k ∈ l) then 1 else 0).
Proof.
  unfold Counter_update. revert c.
  induction l as [|x r IH]; intros c Hnd.
  - cbn [fold_left]. destruct (decide (k ∈ [])) as [Hk|Hk]; [|lia].
    by apply elem_of_nil in Hk.
  - apply NoDup_cons in Hnd. destruct Hnd as [Hx Hnd].
    cbn [fold_left]. rewrite IH by done. rewrite Counter_get_incr.
    destruct (decide (x = k)) as [Heq|Hne], (decide (k ∈ r)) as [Hr|Hr],
      (decide (k ∈ x :: r)) as [Hxr|Hxr]; subst; try lia; try done.
    + destruct Hxr. left.
    + destruct Hxr. by right.
    + apply elem_of_cons in Hxr. by destruct Hxr.
Qed.

Lemma count_tags_wf (l : list Note) (c : Counter) :
  Counter_wf c -> Counter_wf (count_tags l c).
Proof.
  unfold count_tags. revert c.
  induction l as [|x r IH]; intros c Hwf; [done|].
  cbn [fold_left]. by apply IH, Counter_update_wf.
Qed.

Lemma Counter_get_count_tags (l : list Note) (c : Counter) (k : string) :
  Counter_get (count_tags l c) k = Counter_get c k + notes_with k l.
Proof.
  unfold count_tags, notes_with. revert c.
  induction l as [|x r IH]; intros c.
  - simpl. lia.
  - cbn [fold_left]. rewrite IH, Counter_get_update by apply NoDup_elements.
    rewrite filter_cons.
    destruct (decide (k ∈ vault.tags x)) as [Hin|Hout].
    + rewrite decide_True by (by apply elem_of_elements). simpl. lia.
    + rewrite decide_False by (by rewrite elem_of_elements). lia.
Qed.

Lemma notes_with_pos (l : list Note) (k : string) :
  0 < notes_with k l <-> exists note, note ∈ l /\ k ∈ vault.tags note.
Proof.
  unfold notes_with. split.
  - destruct (filter _ l) as [|x r] eqn:E; simpl; [lia|]. intros _.
    assert (x ∈ filter (fun note => k ∈ vault.tags note) l) as Hx
      by (rewrite E; left).
    apply list_elem_of_filter in Hx. exists x. tauto.
  - intros (note & Hin & Htag).
    assert (note ∈ filter (fun note => k ∈ vault.tags note) l) as Hx
      by (by apply list_elem_of_filter).
    destruct (filter _ l); [by apply elem_of_nil in Hx|simpl; lia].
Qed.

Lemma add_rows (items : list (string * nat)) (t : Table) :
  fold_left
    (fun table '(tag, count) =>
       add_row table [CellStr tag; CellStr (str_int count)])
    items t
  = mkTable (table_title t) (show_header t) (columns t)
      (rows t ++ (tag_row <$> items)).
Proof.
  revert t. induction items as [|[tag count] r IH]; intros [title hdr cols rws].
  - simpl. by rewrite app_nil_r.
  - cbn [fold_left]. rewrite IH. unfold add_row.
    cbn [table_title show_header columns rows fmap list_fmap].
    by rewrite <- app_assoc.
Qed.

Lemma count_tags_keys (l : list Note) (tag : string) :
  tag ∈ (count_tags l []).*1
  <-> exists note, note ∈ l /\ tag ∈ vault.tags note.
Proof.
  assert (Counter_wf (count_tags l [])) as Hwf.
  { apply count_tags_wf. split; constructor. }
  rewrite (Counter_wf_keys _ _ Hwf), Counter_get_count_tags.
  cbn [Counter_get]. apply notes_with_pos.
Qed.

(** The table of [tags] holds tags and numbers, which have no [[] in them,
    so the console can render it. *)
Lemma tag_rows_render (items : list (string * nat)) :
  (forall item, item ∈ items -> contains item.1 "[" = false) ->
  renders (RTable (mkTable None true tags_columns (tag_row <$> items))) = true.
Proof.
  intros Hplain. unfold renders.
  cbn [texts table_texts table_title columns rows tags_columns app
       fmap list_fmap header forallb].
  rewrite (markup_plain "Tag"), (markup_plain "Note Count") by done.
  cbn [andb]. induction items as [|[tag count] r IH]; [done|].
  cbn [fmap list_fmap flat_map tag_row cell_texts app forallb fst snd].
  rewrite (markup_plain tag) by (apply (Hplain (tag, count)); left).
  rewrite (markup_plain (str_int count)) by apply str_int_plain.
  cbn [andb]. apply IH. intros item Hin. apply Hplain. by right.
Qed.

Lemma tags_table_renders (l : list Note) :
  renders (RTable (mkTable None true tags_columns
                     (tag_row <$> most_common (count_tags l []))))
  = true.
Proof.
  apply tag_rows_render. intros [tag count] Hin. cbn [fst].
  assert (tag ∈ (count_tags l []).*1) as Hkey.
  { apply list_elem_of_fmap. exists (tag, count). split; [done|].
    unfold most_common in Hin. by rewrite sorted_Permutation in Hin. }
  apply count_tags_keys in Hkey. destruct Hkey as (note & _ & Htag).
  by apply (tags_plain note).
Qed.

Lemma tags_run (v : Vault) (w : World) :
  tags v w
  = (mkWorld
       (stdout w ++
          [RTable (mkTable None true tags_columns
                     (tag_row <$> most_common (count_tags (notes v) [])))])
       (trace w ++ (NextNote <$> notes v)),
     Ok tt).
Proof.
  unfold cli.tags. unfold mbind, M_bind.
  rewrite (for_notes_pure
             (fun c note => Counter_update c (elements (vault.tags note))))
    by done.
  rewrite add_rows. cbn [add_column table_title show_header columns rows app].
  rewrite print_renders by apply tags_table_renders. done.
Qed.

(** C10. [tags] prints one row per tag that occurs in some note; the count
    in the row is the number of notes whose set of tags has the tag as a
    member; the rows are in non-increasing order of count. *)
Theorem tags_table_counts_notes_per_tag (v : Vault) (w : World) :
  exists items : list (string * nat),
    (tags v w).2 = Ok tt
    /\ stdout (tags v w).1
       = stdout w ++
         [RTable (mkTable None true
                    [mkColumn "Tag" "bold cyan" "left";
                     mkColumn "Note Count" "yellow" "right"]
                    ((fun item => [CellStr item.1; CellStr (str_int item.2)])
                       <$> items))]
    /\ NoDup items.*1
    /\ (forall tag, tag ∈ items.*1 <->
          exists note, note ∈ notes v /\ tag ∈ vault.tags note)
    /\ (forall tag count, (tag, count) ∈ items ->
          count = length (filter (fun note => tag ∈ vault.tags note) (notes v)))
    /\ StronglySorted (fun a b => b.2 <= a.2) items
    /\ (forall m n, str_int m = str_int n -> m = n).
Proof.
  exists (most_common (count_tags (notes v) [])).
  assert (Counter_wf (count_tags (notes v) [])) as Hwf.
  { apply count_tags_wf. split; constructor. }
  assert (most_common (count_tags (notes v) []) ≡ₚ count_tags (notes v) [])
    as Hperm by apply sorted_Permutation.
  rewrite tags_run. cbn [fst snd stdout].
  split; [done|]. split; [done|]. split; [|split; [|split; [|split]]].
  - rewrite Hperm. apply Hwf.
  - intros tag. rewrite Hperm, (Counter_wf_keys _ _ Hwf).
    rewrite Counter_get_count_tags. cbn [Counter_get].
    apply notes_with_pos.
  - intros tag count Hin. rewrite Hperm in Hin.
    destruct (Counter_wf_get _ _ _ Hwf Hin) as [<- _].
    by rewrite Counter_get_count_tags.
  - eapply StronglySorted_weaken; [|apply (sorted_StronglySorted snd true)].
    intros a b. unfold in_order, le, lexico, nat_lexico. lia.
  - intros m n. apply (inj pretty).
Qed.

End tags_facts.

(** ** [validate_frontmatter] *)

Section validate_facts.
Import py rich jsonschema vault io cli steps.

#[global] Instance PathElem_lexico_po : StrictOrder (@lexico PathElem _).
Proof.
  split.
  - intros [s|i]; unfold complement, lexico, PathElem_lexico.
    + apply (irreflexivity lexico s).
    + apply (irreflexivity lexico i).
  - intros [s|i] [t|j] [u|k]; unfold lexico, PathElem_lexico; try done.
    + apply (transitivity (R := lexico)).
    + apply (transitivity (R := lexico)).
Qed.

Lemma le_fst {A B} `{Lexico A, Lexico B} (p q : A * B) :
  le p q -> le p.1 q.1.
Proof.
  intros [[Hlt|[Heq _]]| ->]; [by left|by right|by right].
Qed.

Lemma relevance_le_depth (e1 e2 : ValidationError) :
  le (relevance e1) (relevance e2) -> length (path e2) <= length (path e1).
Proof.
  intros Hle. do 4 apply le_fst in Hle. unfold relevance in Hle.
  cbn [fst] in Hle. destruct Hle as [Hlt|Heq].
  - unfold lexico, Z_lexico in Hlt. lia.
  - lia.
Qed.

Lemma fold_add_leaves (errors : list ValidationError) (t : Tree) :
  fold_left (fun subtree error => add subtree (Node (str error) [])) errors t
  = Node (label t) (children t ++ (error_leaf <$> errors)).
Proof.
  revert t. induction errors as [|e r IH]; intros [l c].
  - simpl. by rewrite app_nil_r.
  - cbn [fold_left]. rewrite IH. unfold add.
    cbn [label children fmap list_fmap]. by rewrite <- app_assoc.
Qed.

Context `{Collaborators}.

Lemma validate_note_run (V : Validator) (schema : JSON) (tree : Tree)
    (note : Note) (w : World) :
  validate_note V schema tree note w
  = (mkWorld (stdout w) (trace w ++ note_calls note),
     note_result V schema tree note).
Proof.
  unfold validate_note, note_result, note_calls, report_entry.
  destruct w as [out tr].
  destruct (awaiting_triage note).
  - unfold mret, M_ret. cbn [stdout trace]. by rewrite app_nil_r.
  - unfold mbind, M_bind, call, lift. cbn [stdout trace].
    destruct (iter_errors V schema (frontmatter note)) as [found|e]; [|done].
    destruct (sorted relevance false found) as [|e r] eqn:E; [done|].
    rewrite fold_add_leaves. done.
Qed.

Lemma validate_loop (V : Validator) (schema : JSON) (l : list Note)
    (tree : Tree) (w : World) :
  for_each
    (fun acc note => _ ← call (NextNote note); validate_note V schema acc note)
    l tree w
  = (mkWorld (stdout w) (trace w ++ loop_calls V schema l tree),
     loop_result V schema l tree).
Proof.
  revert tree w. induction l as [|x r IH]; intros tree [out tr].
  - simpl. by rewrite app_nil_r.
  - rewrite for_each_cons, next_note_then, validate_note_run.
    cbn [stdout trace loop_result loop_calls].
    destruct (note_result V schema tree x) as [tree'|e].
    + rewrite IH. cbn [stdout trace]. by rewrite <- !app_assoc.
    + by rewrite app_nil_r, <- !app_assoc.
Qed.

Lemma loop_result_without_triage (V : Validator) (schema : JSON)
    (l : list Note) (tree : Tree) :
  loop_result V schema (filter (fun note => awaiting_triage note = false) l) tree
  = loop_result V schema l tree.
Proof.
  revert tree. induction l as [|x r IH]; intros tree; [done|].
  rewrite filter_cons. destruct (awaiting_triage x) eqn:E.
  - rewrite decide_False by done. cbn [loop_result]. unfold note_result.
    rewrite E. apply IH.
  - rewrite decide_True by done. cbn [loop_result].
    destruct (note_result V schema tree x); [apply IH|done].
Qed.

Lemma loop_calls_IterErrors (V : Validator) (schema : JSON) (l : list Note)
    (tree : Tree) (j : JSON) :
  IterErrors j ∈ loop_calls V schema l tree ->
  exists note, note ∈ l /\ awaiting_triage note = false /\ frontmatter note = j.
Proof.
  revert tree. induction l as [|x r IH]; intros tree; cbn [loop_calls].
  - by intros ?%elem_of_nil.
  - rewrite elem_of_cons, elem_of_app. intros [?|[Hx|Hr]]; [done|..].
    + unfold note_calls in Hx. destruct (awaiting_triage x) eqn:E.
      * by apply elem_of_nil in Hx.
      * apply list_elem_of_singleton in Hx. simplify_eq.
        exists x. split; [left|done].
    + destruct (note_result V schema tree x) as [tree'|e].
      * destruct (IH _ Hr) as (note & Hin & Hrest).
        exists note. split; [by right|done].
      * by apply elem_of_nil in Hr.
Qed.

End validate_facts.

Section validate_claims.
Import py rich jsonschema vault io cli steps.
Context `{Collaborators} `{Markup}.

(** C3. Without a file [schema.json] in the vault, reading it raises
    [FileNotFoundError] and [validate_frontmatter] ends with it: nothing is
    printed, neither a report nor the message that all notes are valid, and
    no note is looked at. *)
Theorem validate_frontmatter_without_schema_file (v : Vault) (w : World) :
  files v !! "schema.json" = None ->
  validate_frontmatter v w
  = (mkWorld (stdout w) (trace w ++ [ReadText "schema.json"]),
     Raise (FileNotFoundError "schema.json")).
Proof.
  intros Hfile. unfold validate_frontmatter, mbind, M_bind, call, lift,
    read_text, child.
  cbn [stdout trace]. by rewrite Hfile.
Qed.

(** C2. When the document read from [schema.json] is refused by the schema
    check of lines 69 and 70, [validate_frontmatter] ends with the exception
    of the check: it has neither asked the vault for a note nor handed a
    frontmatter to the validator, nor printed anything. *)
Theorem validate_frontmatter_invalid_schema (v : Vault) (w : World)
    (text : string) (schema : JSON) (e : exn) :
  files v !! "schema.json" = Some text ->
  json_loads text = Ok schema ->
  schema_check schema = Raise e ->
  exists calls,
    validate_frontmatter v w
    = (mkWorld (stdout w) (trace w ++ ReadText "schema.json" :: calls), Raise e)
    /\ (forall call, call ∈ calls -> call = CheckSchema schema).
Proof.
  intros Hfile Hloads Hcheck. unfold schema_check in Hcheck.
  unfold validate_frontmatter, mbind, M_bind, call, lift, read_text, child.
  cbn [stdout trace]. rewrite Hfile, Hloads.
  destruct (validator_for schema) as [V|e'].
  - exists [CheckSchema schema]. cbn [stdout trace]. rewrite Hcheck.
    split; [by rewrite <- app_assoc|].
    by intros call ->%list_elem_of_singleton.
  - simplify_eq. exists []. split; [done|]. by intros call ?%elem_of_nil.
Qed.

(** C8. A note that awaits triage is skipped by [validate_frontmatter]
    before its frontmatter is looked at: the loop leaves the report as it is
    and does not call the validator; the command prints and returns what it
    does on the vault without the notes that await triage; and every
    frontmatter the validator is handed is that of a note that does not await
    triage. *)
Theorem validate_frontmatter_skips_notes_awaiting_triage (v : Vault) (w : World) :
  (forall V schema tree note w',
     awaiting_triage note = true ->
     validate_note V schema tree note w' = (w', Ok tree))
  /\ stdout (validate_frontmatter v w).1
     = stdout (validate_frontmatter (without_triage v) w).1
  /\ (validate_frontmatter v w).2 = (validate_frontmatter (without_triage v) w).2
  /\ (forall instance,
        IterErrors instance ∈ trace (validate_frontmatter v w).1 ->
        IterErrors instance ∈ trace w
        \/ exists note, note ∈ notes v /\ awaiting_triage note = false
             /\ frontmatter note = instance).
Proof.
  split.
  { intros V schema tree note w' Htriage. rewrite validate_note_run.
    unfold note_calls, note_result. rewrite Htriage.
    destruct w'. cbn [stdout trace]. by rewrite app_nil_r. }
  unfold validate_frontmatter, mbind, M_bind, call, lift, read_text, child,
    for_notes.
  cbn [stdout trace files without_triage notes].
  destruct (files v !! "schema.json") as [text|].
  2:{ cbn [fst snd stdout trace]. split; [done|]. split; [done|].
      intros instance Hin. left. apply elem_of_app in Hin.
      destruct Hin as [?|Hin]; [done|].
      by apply list_elem_of_singleton in Hin. }
  destruct (json_loads text) as [schema|e].
  2:{ cbn [fst snd stdout trace]. split; [done|]. split; [done|].
      intros instance Hin. left. apply elem_of_app in Hin.
      destruct Hin as [?|Hin]; [done|].
      by apply list_elem_of_singleton in Hin. }
  destruct (validator_for schema) as [V|e].
  2:{ cbn [fst snd stdout trace]. split; [done|]. split; [done|].
      intros instance Hin. left. apply elem_of_app in Hin.
      destruct Hin as [?|Hin]; [done|].
      by apply list_elem_of_singleton in Hin. }
  cbn [stdout trace].
  destruct (check_schema V schema) as [[]|e].
  2:{ cbn [fst snd stdout trace]. split; [done|]. split; [done|].
      intros instance Hin. left. rewrite !elem_of_app in Hin.
      destruct Hin as [[?|Hin]|Hin]; [done|..];
        by apply list_elem_of_singleton in Hin. }
  rewrite !validate_loop. cbn [stdout trace].
  rewrite loop_result_without_triage.
  destruct (loop_result V schema (notes v) _) as [[lbl [|c cs]]|e];
    cbn [children]; unfold print; try destruct (renders _);
    cbn [fst snd stdout trace];
    (split; [done|]; split; [done|]);
    intros instance Hin; rewrite !elem_of_app in Hin;
    (destruct Hin as [[[?|Hin]|Hin]|Hin];
       [by left
       |by apply list_elem_of_singleton in Hin
       |by apply list_elem_of_singleton in Hin
       |right; by eapply loop_calls_IterErrors]).
Qed.

End validate_claims.

Section relevance_claims.
Import py rich jsonschema vault io cli steps.

Lemma StronglySorted_not_precedes {A} (R : relation A) (l : list A) (x y : A) :
  StronglySorted R l -> ~ R y x -> ~ precedes y x l.
Proof.
  intros Hsorted Hyx (l1 & l2 & l3 & ->). apply Hyx.
  apply StronglySorted_app_1_r in Hsorted.
  apply StronglySorted_cons in Hsorted. destruct Hsorted as [Hall _].
  rewrite Forall_forall in Hall. apply Hall.
  apply elem_of_app. right. left.
Qed.

Lemma StronglySorted_precedes {A} (R : relation A) (l : list A) (x y : A) :
  (forall z, R z z) ->
  StronglySorted R l -> x ∈ l -> y ∈ l -> ~ R y x -> precedes x y l.
Proof.
  intros Hrefl Hsorted Hx Hy Hyx.
  apply list_elem_of_split in Hx. destruct Hx as (l1 & l2 & ->).
  rewrite elem_of_app, elem_of_cons in Hy. destruct Hy as [Hy|[->|Hy]].
  - apply list_elem_of_split in Hy. destruct Hy as (a & b & ->).
    destruct (StronglySorted_not_precedes R _ x y Hsorted Hyx).
    exists a, b, l2. by rewrite <- app_assoc.
  - by destruct Hyx.
  - apply list_elem_of_split in Hy. destruct Hy as (a & b & ->).
    by exists l1, a, b.
Qed.

Context `{Collaborators}.

(** C1, as amended. For a note that is validated and has errors, the entry
    of the report is the subpath of the note with one leaf per error, the
    errors being those of the validator in increasing order of the key
    [relevance], errors of equal key in the order the validator found them.
    The key starts with minus the length of the path of the error, so an
    error on a longer path comes before every error on a shorter one: the
    error on a field comes before the errors on the document as a whole, and
    after the errors further down in other fields. *)
Theorem validate_note_sorts_errors_by_relevance_key
    (V : Validator) (schema : JSON) (tree : Tree) (note : Note) (w : World)
    (found : list ValidationError) :
  awaiting_triage note = false ->
  iter_errors V schema (frontmatter note) = Ok found ->
  found <> [] ->
  exists errors,
    validate_note V schema tree note w
    = (mkWorld (stdout w) (trace w ++ [IterErrors (frontmatter note)]),
       Ok (add tree
             (Node (subpath note) ((fun error => Node (str error) []) <$> errors))))
    /\ errors ≡ₚ found
    /\ StronglySorted (fun e1 e2 => le (relevance e1) (relevance e2)) errors
    /\ (forall k,
          List.filter (same_key relevance k) errors
          = List.filter (same_key relevance k) found)
    /\ (forall e1 e2, e1 ∈ found -> e2 ∈ found ->
          length (path e2) < length (path e1) ->
          precedes e1 e2 errors /\ ~ precedes e2 e1 errors).
Proof.
  intros Htriage Hfound Hne. exists (sorted relevance false found).
  assert (StronglySorted (fun e1 e2 => le (relevance e1) (relevance e2))
            (sorted relevance false found)) as Hsorted
    by apply (sorted_StronglySorted relevance false).
  split; [|split; [|split; [|split]]].
  - rewrite validate_note_run. unfold note_calls, note_result, report_entry.
    rewrite Htriage, Hfound.
    destruct (sorted relevance false found) as [|e r] eqn:E; [|done].
    destruct Hne. apply Permutation_nil_r. rewrite <- E.
    symmetry. apply sorted_Permutation.
  - apply sorted_Permutation.
  - exact Hsorted.
  - intros k. apply sorted_stable.
  - intros e1 e2 H1 H2 Hdepth.
    assert (~ le (relevance e2) (relevance e1)) as Hnle.
    { intros Hle. apply relevance_le_depth in Hle. lia. }
    split.
    + apply (StronglySorted_precedes
               (fun e1 e2 => le (relevance e1) (relevance e2)) _ _ _
               (fun e => le_refl (relevance e)) Hsorted); [| |done].
      * by rewrite sorted_Permutation.
      * by rewrite sorted_Permutation.
    + by apply (StronglySorted_not_precedes _ _ _ _ Hsorted).
Qed.

End relevance_claims.

Section relevance_examples.
Import py rich jsonschema vault io cli steps example.

(** C1, as stated, fails. The note [projects/garden.md] has a [status] that
    is not in the enumeration, and a project owner without the required
    name, an error that has nothing to do with [status]. The report lists
    the error on [project], [owner] first and the error on [status] after
    it. *)
Lemma status_error_after_unrelated_error :
  printed (validate_frontmatter the_vault)
  = [RTree
       (Node "[red]Invalid Notes[/red]"
          [Node "projects/garden.md"
             [Node "'name' is a required property" [];
              Node "'maybe' is not one of ['todo', 'doing', 'done']" []]])]
  /\ ~ precedes
         (Node "'maybe' is not one of ['todo', 'doing', 'done']" [])
         (Node "'name' is a required property" [])
         [Node "'name' is a required property" [];
          Node "'maybe' is not one of ['todo', 'doing', 'done']" []].
Proof.
  split; [by vm_compute|].
  intros (l1 & l2 & l3 & Heq).
  destruct l1 as [|? [|? [|? ?]]], l2 as [|? [|? ?]]; simplify_eq/=.
Qed.

End relevance_examples.

(** ** The note parser *)

Section parser_facts.
Import jsonschema vault parser.

Variable marker : string.
Variable load : list string -> result JSON.
Variable triage : JSON -> bool.
Variable is_note : string -> bool.

Lemma parse_total (raw : string) :
  exists fm body found,
    parse marker load raw = Ok (fm, body, found)
    /\ (exists members, fm = JObject members)
    /\ (fenced marker (splitlines raw) = None -> fm = JObject [])
    /\ (forall block rest,
          fenced marker (splitlines raw) = Some (block, rest) ->
          (forall members, load block <> Ok (JObject members)) ->
          fm = JObject []).
Proof.
  unfold parse. destruct (fenced marker (splitlines raw)) as [[block rest]|].
  - destruct (load block) as [j|e] eqn:E; cbn [result_bind try_except].
    + destruct j as [| | | | |members]; cbn [as_mapping result_bind try_except];
        try (eexists _, _, _; split; [reflexivity|];
             split; [by eexists|]; split; [done|];
             intros block' rest' [= <- <-] Hbad; done).
      eexists _, _, _. split; [reflexivity|]. split; [by eexists|].
      split; [done|]. intros block' rest' [= <- <-] Hbad.
      by destruct (Hbad members).
    + eexists _, _, _. split; [reflexivity|]. split; [by eexists|].
      split; [done|]. done.
  - eexists _, _, _. split; [reflexivity|]. split; [by eexists|].
    split; [done|]. done.
Qed.

Lemma result_map_total {A B} (f : A -> result B) (l : list A) :
  (forall x, x ∈ l -> exists y, f x = Ok y) ->
  exists ys, result_map f l = Ok ys /\ Forall2 (fun x y => f x = Ok y) l ys.
Proof.
  induction l as [|x r IH]; intros Hf.
  - exists []. split; [done|constructor].
  - destruct (Hf x) as [y Hy]; [left|].
    destruct IH as (ys & Hys & Hall).
    { intros z Hz. apply Hf. by right. }
    exists (y :: ys). cbn [result_map]. rewrite Hy, Hys.
    split; [done|]. by constructor.
Qed.

(** C7. [parse] returns on every text: the frontmatter it returns is a
    mapping, and it is the empty mapping when the text has no fenced block
    and when the block does not load into a mapping, whether the loader
    raises or returns something else. The traversal of the vault therefore
    returns on all readable files, with one note per file of the notes
    convention, in order. *)
Theorem parse_never_raises_on_malformed_frontmatter :
  (forall raw,
     exists fm body found,
       parse marker load raw = Ok (fm, body, found)
       /\ (exists members, fm = JObject members)
       /\ (fenced marker (splitlines raw) = None -> fm = JObject [])
       /\ (forall block rest,
             fenced marker (splitlines raw) = Some (block, rest) ->
             (forall members, load block <> Ok (JObject members)) ->
             fm = JObject []))
  /\ (forall disk,
        exists found,
          notes_of marker load triage is_note disk = Ok found
          /\ subpath <$> found = (List.filter (fun '(name, _) => is_note name) disk).*1
          /\ (forall note, note ∈ found ->
                exists raw body tags,
                  (subpath note, raw) ∈ disk
                  /\ parse marker load raw = Ok (frontmatter note, body, tags))).
Proof.
  split; [apply parse_total|].
  intros disk. unfold notes_of.
  set (files := List.filter (fun '(name, _) => is_note name) disk).
  assert (forall file, file ∈ files -> file ∈ disk) as Hsub.
  { intros file Hfile. apply list_elem_of_In in Hfile.
    apply filter_In in Hfile. apply list_elem_of_In. tauto. }
  destruct (result_map_total
    (fun '(name, raw) =>
       result_bind (parse marker load raw) (fun '(fm, body, _) =>
       Ok (mkNote name fm (hashtags raw) body (triage fm)
             (hashtags_grammar raw)))) files) as (found & Hfound & Hall).
  { intros [name raw] _. destruct (parse_total raw) as (fm & body & tags & -> & _).
    by eexists. }
  exists found. split; [exact Hfound|]. clear Hfound.
  induction Hall as [|[name raw] note files' found' Hnote Hall IH].
  - split; [done|]. by intros note ?%elem_of_nil.
  - destruct (parse_total raw) as (fm & body & tags & Hparse & _).
    rewrite Hparse in Hnote. cbn [result_bind] in Hnote. simplify_eq.
    destruct IH as [IHs IHn].
    { intros file Hfile. apply Hsub. by right. }
    split.
    + cbn [fmap list_fmap subpath fst]. by rewrite IHs.
    + intros note [->|Hin]%elem_of_cons.
      * exists raw, body, tags. cbn [subpath frontmatter].
        split; [apply Hsub; left|done].
      * by apply IHn.
Qed.

End parser_facts.

(** ** The commands on the example vault *)

Section witnesses.
Import py rich jsonschema vault io cli steps parser example example_runs.

Lemma validate_frontmatter_without_schema_file_witness :
  files bare_vault !! "schema.json" = None
  /\ validate_frontmatter bare_vault World_empty
     = (mkWorld [] [ReadText "schema.json"],
        Raise (FileNotFoundError "schema.json")).
Proof.
  split; [reflexivity|].
  apply (validate_frontmatter_without_schema_file bare_vault World_empty).
  reflexivity.
Defined.

Lemma validate_frontmatter_invalid_schema_witness :
  files broken_vault !! "schema.json" = Some "[]"
  /\ json_loads "[]" = Ok (JArray [])
  /\ schema_check (JArray [])
     = Raise (SchemaError "the document is not of type 'object', 'boolean'")
  /\ exists calls,
       validate_frontmatter broken_vault World_empty
       = (mkWorld [] (ReadText "schema.json" :: calls),
          Raise (SchemaError "the document is not of type 'object', 'boolean'"))
       /\ (forall call, call ∈ calls -> call = CheckSchema (JArray [])).
Proof.
  split; [reflexivity|]. split; [reflexivity|]. split; [reflexivity|].
  apply (validate_frontmatter_invalid_schema (H:=collaborators) broken_vault
           World_empty "[]" (JArray [])
           (SchemaError "the document is not of type 'object', 'boolean'"));
    reflexivity.
Defined.

Lemma validate_note_sorts_errors_by_relevance_key_witness :
  awaiting_triage garden = false
  /\ iter_errors (Collaborators:=collaborators) tt schema (frontmatter garden)
     = Ok (status_errors (frontmatter garden) ++ owner_errors (frontmatter garden))
  /\ exists errors,
       validate_note (H:=collaborators) tt schema
         (Node "[red]Invalid Notes[/red]" []) garden
         World_empty
       = (mkWorld [] [IterErrors (frontmatter garden)],
          Ok (Node "[red]Invalid Notes[/red]"
                [Node "projects/garden.md"
                   ((fun error => Node (str error) []) <$> errors)]))
       /\ errors ≡ₚ status_errors (frontmatter garden)
                    ++ owner_errors (frontmatter garden).
Proof.
  split; [reflexivity|]. split; [reflexivity|].
  destruct (validate_note_sorts_errors_by_relevance_key (H:=collaborators) tt schema
              (Node "[red]Invalid Notes[/red]" []) garden World_empty
              (status_errors (frontmatter garden)
                 ++ owner_errors (frontmatter garden)))
    as (errors & Hrun & Hperm & _); [reflexivity|reflexivity|discriminate|].
  exists errors. split; [exact Hrun|exact Hperm].
Defined.



(** The commands on the example vault. *)

Example anki_on_the_vault :
  printed (anki the_vault)
  = [RText "projects/garden.md"; RText "b/x.md"; RText "a/x.md"].
Proof. by vm_compute. Qed.

Example todo_on_the_vault :
  printed (todo the_vault)
  = [RPanel (mkPanel (text ["inbox/idea.md"; "projects/garden.md"]) ROUNDED
               (Some "Notes with #todo tags") "cyan");
     RTable (mkTable (Some "Tasks") true tasks_columns
               [[CellStr "projects/garden.md";
                 CellPanel (mkPanel
                   (text ["Plant the beans #todo"; "Buy seeds #todo/now"])
                   SIMPLE None "none")];
                [CellStr "a/x.md";
                 CellPanel (mkPanel "#todos are not tags" SIMPLE None "none")]])].
Proof. by vm_compute. Qed.

Example tags_on_the_vault :
  printed (tags the_vault)
  = [RTable (mkTable None true tags_columns
       [[CellStr "learn/anki"; CellStr "3"];
        [CellStr "todo"; CellStr "1"]; [CellStr "idea"; CellStr "1"];
        [CellStr "todo/now"; CellStr "1"];
        [CellStr "learn/anki/cooking"; CellStr "1"];
        [CellStr "anki"; CellStr "1"]; [CellStr "learn"; CellStr "1"]])].
Proof. by vm_compute. Qed.

(** The scenarios of the design document for the parser. *)

Example parse_frontmatter_and_tags :
  parse "---" load_block
    (text ["---"; "status: done"; "---"; "Remember the #todo item"])
  = Ok (JObject [("status", JString "done")], ["Remember the #todo item"],
        {[ "todo" ]}).
Proof. by vm_compute. Qed.

Example parse_without_frontmatter :
  parse "---" load_block "#todo/now check this"
  = Ok (JObject [], ["#todo/now check this"], {[ "todo/now" ]}).
Proof. by vm_compute. Qed.

Example parse_unterminated_block :
  parse "---" load_block (text ["---"; "status: done"; "no end #a-b foo#bar"])
  = Ok (JObject [], ["---"; "status: done"; "no end #a-b foo#bar"], {[ "a-b" ]}).
Proof. by vm_compute. Qed.

Example parse_malformed_block :
  parse "---" load_block (text ["---"; "status done"; "---"; "body"])
  = Ok (JObject [], ["---"; "status done"; "---"; "body"], ∅).
Proof. by vm_compute. Qed.

End witnesses.

(** ** The report of [validate_frontmatter] as a whole *)

Section report_facts.
Import py rich jsonschema vault io cli steps reports.
Context `{Collaborators} `{Markup}.

Lemma sorted_nil_inv {A K} `{Lexico K, !TrichotomyT (@lexico K _)}
    (key : A -> K) (reverse : bool) (l : list A) :
  sorted key reverse l = [] -> l = [].
Proof.
  intros Hnil. apply Permutation_nil_r. rewrite <- Hnil.
  symmetry. apply sorted_Permutation.
Qed.

Lemma note_result_entries (V : Validator) (schema : JSON) (lbl : string)
    (c : list Tree) (note : Note) :
  validates V schema note ->
  note_result V schema (Node lbl c) note
  = Ok (Node lbl (c ++ note_entries V schema note)).
Proof.
  unfold validates, note_result, note_entries, note_errors, report_entry.
  destruct (awaiting_triage note).
  - intros _. by rewrite app_nil_r.
  - intros [?|[found ->]]; [done|].
    destruct (sorted relevance false found); [by rewrite app_nil_r|done].
Qed.

Lemma loop_result_entries (V : Validator) (schema : JSON) (l : list Note)
    (lbl : string) (c : list Tree) :
  Forall (validates V schema) l ->
  loop_result V schema l (Node lbl c)
  = Ok (Node lbl (c ++ flat_map (note_entries V schema) l)).
Proof.
  intros Hall. revert c. induction Hall as [|x r Hx Hr IH]; intros c.
  - simpl. by rewrite app_nil_r.
  - cbn [loop_result flat_map]. rewrite note_result_entries by done.
    rewrite IH. by rewrite <- app_assoc.
Qed.

Lemma loop_calls_returns (V : Validator) (schema : JSON) (l : list Note)
    (tree : Tree) :
  Forall (validates V schema) l ->
  loop_calls V schema l tree = calls_for l.
Proof.
  intros Hall. revert tree. induction Hall as [|x r Hx Hr IH]; intros [lbl c].
  - done.
  - cbn [loop_calls calls_for flat_map]. rewrite note_result_entries by done.
    rewrite IH. done.
Qed.

Lemma loop_result_app (V : Validator) (schema : JSON) (l1 l2 : list Note)
    (tree : Tree) :
  loop_result V schema (l1 ++ l2) tree
  = match loop_result V schema l1 tree with
    | Ok tree' => loop_result V schema l2 tree'
    | Raise e => Raise e
    end.
Proof.
  revert tree. induction l1 as [|x r IH]; intros tree; [done|].
  cbn [app loop_result]. destruct (note_result V schema tree x); [apply IH|done].
Qed.

Lemma loop_calls_app (V : Validator) (schema : JSON) (l1 l2 : list Note)
    (tree : Tree) :
  loop_calls V schema (l1 ++ l2) tree
  = loop_calls V schema l1 tree
    ++ match loop_result V schema l1 tree with
       | Ok tree' => loop_calls V schema l2 tree'
       | Raise e => []
       end.
Proof.
  revert tree. induction l1 as [|x r IH]; intros tree; [done|].
  cbn [app loop_calls loop_result].
  destruct (note_result V schema tree x).
  - rewrite IH. by rewrite <- !app_assoc.
  - by rewrite !app_nil_r.
Qed.

(** The command once the schema has been read and has passed the check. *)
Lemma validate_frontmatter_checked (v : Vault) (w : World) (text : string)
    (schema : JSON) (V : Validator) :
  files v !! "schema.json" = Some text ->
  json_loads text = Ok schema ->
  validator_for schema = Ok V ->
  check_schema V schema = Ok tt ->
  validate_frontmatter v w
  = match loop_result V schema (notes v) (Node "[red]Invalid Notes[/red]" []) with
    | Ok tree =>
        print (report tree)
          (mkWorld (stdout w)
             (trace w ++ ReadText "schema.json" :: CheckSchema schema
                :: loop_calls V schema (notes v)
                     (Node "[red]Invalid Notes[/red]" [])))
    | Raise e =>
        (mkWorld (stdout w)
           (trace w ++ ReadText "schema.json" :: CheckSchema schema
              :: loop_calls V schema (notes v) (Node "[red]Invalid Notes[/red]" [])),
         Raise e)
    end.
Proof.
  intros Hfile Hloads Hfor Hcheck.
  unfold validate_frontmatter, mbind, M_bind, call, lift, read_text, child,
    for_notes.
  cbn [stdout trace]. rewrite Hfile, Hloads, Hfor. cbn [stdout trace].
  rewrite Hcheck, validate_loop. cbn [stdout trace].
  destruct (loop_result V schema (notes v) _) as [[lbl [|c cs]]|e];
    unfold report; cbn [children]; by rewrite <- ?app_assoc.
Qed.

Lemma print_trace (r : Renderable) (w : World) :
  trace (print r w).1 = trace w.
Proof. unfold print. by destruct (renders r). Qed.

Lemma print_stdout (r : Renderable) (w : World) :
  stdout (print r w).1 = stdout w ++ written [r].
Proof. by rewrite print_written. Qed.

Lemma renders_all_valid :
  renders (RText "All notes are [green]valid[/green].") = true.
Proof. rewrite renders_text. apply markup_all_valid. Qed.

(** X1. Once [schema.json] has been read and has passed the check, and the
    validator returns on every note it is asked about, the report of
    [validate_frontmatter] is the tree "Invalid Notes" with one subtree per
    note that is not awaiting triage and has errors, in traversal order,
    labelled with the subpath and holding the sorted errors; or, when there
    is no such note, the message that all notes are valid.  The command
    returns with the report as its one output when the console can render
    it, which it can when it is the message, and ends with [MarkupError]
    and no output when it cannot. *)
Theorem validate_frontmatter_prints_one_entry_per_invalid_note
    (v : Vault) (w : World) (text : string) (schema : JSON) (V : Validator) :
  files v !! "schema.json" = Some text ->
  json_loads text = Ok schema ->
  validator_for schema = Ok V ->
  check_schema V schema = Ok tt ->
  (forall note, note ∈ notes v ->
     awaiting_triage note = true
     \/ exists found, iter_errors V schema (frontmatter note) = Ok found) ->
  let entries :=
    flat_map
      (fun note =>
         if awaiting_triage note then []
         else
           match iter_errors V schema (frontmatter note) with
           | Ok (e :: found) =>
               [Node (subpath note)
                  ((fun error => Node (str error) [])
                     <$> sorted relevance false (e :: found))]
           | _ => []
           end)
      (notes v) in
  let output :=
    match entries with
    | [] => RText "All notes are [green]valid[/green]."
    | _ :: _ => RTree (Node "[red]Invalid Notes[/red]" entries)
    end in
  (renders output = true ->
     (validate_frontmatter v w).2 = Ok tt
     /\ stdout (validate_frontmatter v w).1 = stdout w ++ [output])
  /\ (renders output = false ->
        (validate_frontmatter v w).2 = Raise MarkupError
        /\ stdout (validate_frontmatter v w).1 = stdout w)
  /\ (entries = [] -> renders output = true).
Proof.
  intros Hfile Hloads Hfor Hcheck Hall entries output.
  rewrite (validate_frontmatter_checked v w text schema V) by done.
  rewrite loop_result_entries by (by apply Forall_forall).
  assert (flat_map (note_entries V schema) (notes v) = entries) as Hentries.
  { unfold entries. clear. induction (notes v) as [|x r IH]; [done|].
    cbn [flat_map]. rewrite IH. f_equal.
    unfold note_entries, note_errors. destruct (awaiting_triage x); [done|].
    destruct (iter_errors V schema (frontmatter x)) as [[|e found]|]; [done| |done].
    destruct (sorted relevance false (e :: found)) eqn:E; [|done].
    by apply sorted_nil_inv in E. }
  assert (report (Node "[red]Invalid Notes[/red]"
                    ([] ++ flat_map (note_entries V schema) (notes v)))
          = output) as ->.
  { unfold report, output. cbn [children app]. rewrite Hentries.
    by destruct entries. }
  split; [|split].
  - intros Hr. by rewrite print_renders.
  - intros Hr. by rewrite print_raises.
  - unfold output. intros ->. apply renders_all_valid.
Qed.

(** X2. Under the same conditions the message that all notes are valid is
    what is printed exactly when every note is awaiting triage or has no
    error. *)
Theorem validate_frontmatter_all_valid_iff
    (v : Vault) (w : World) (text : string) (schema : JSON) (V : Validator) :
  files v !! "schema.json" = Some text ->
  json_loads text = Ok schema ->
  validator_for schema = Ok V ->
  check_schema V schema = Ok tt ->
  (forall note, note ∈ notes v ->
     awaiting_triage note = true
     \/ exists found, iter_errors V schema (frontmatter note) = Ok found) ->
  stdout (validate_frontmatter v w).1
  = stdout w ++ [RText "All notes are [green]valid[/green]."]
  <-> forall note, note ∈ notes v ->
        awaiting_triage note = true
        \/ iter_errors V schema (frontmatter note) = Ok [].
Proof.
  intros Hfile Hloads Hfor Hcheck Hall.
  rewrite (validate_frontmatter_checked v w text schema V) by done.
  rewrite loop_result_entries by (by apply Forall_forall).
  unfold report. cbn [children app]. rewrite print_stdout. cbn [stdout].
  assert (flat_map (note_entries V schema) (notes v) = []
          <-> forall note, note ∈ notes v ->
                awaiting_triage note = true
                \/ iter_errors V schema (frontmatter note) = Ok []) as <-.
  { clear -Hall. induction (notes v) as [|x r IH].
    - split; [|done]. by intros _ note ?%elem_of_nil.
    - assert (forall n, n ∈ r ->
                awaiting_triage n = true
                \/ exists found, iter_errors V schema (frontmatter n) = Ok found)
        as Hr by (intros n Hn; apply Hall; by right).
      assert (note_entries V schema x = []
              <-> awaiting_triage x = true
                  \/ iter_errors V schema (frontmatter x) = Ok []) as Hx.
      { unfold note_entries, note_errors.
        destruct (Hall x) as [Ht|[found Hfound]]; [left|..].
        - rewrite Ht. split; [by left|done].
        - rewrite Hfound. destruct (awaiting_triage x); [split; [by left|done]|].
          destruct (sorted relevance false found) eqn:E.
          + apply sorted_nil_inv in E as ->. split; [by right|done].
          + split; [done|]. intros [?|[= ->]]; done. }
      cbn [flat_map]. split.
      + intros [Hx' Hr']%app_eq_nil note [->|Hin]%elem_of_cons.
        * by apply Hx.
        * by apply (proj1 (IH Hr)).
      + intros Hvalid.
        rewrite (proj2 Hx) by (apply Hvalid; left).
        apply (proj2 (IH Hr)). intros n Hn. apply Hvalid. by right. }
  destruct (flat_map (note_entries V schema) (notes v)) as [|entry entries].
  - cbn [written]. by rewrite renders_all_valid.
  - split; [|done]. cbn [written].
    destruct (renders _); intros Hout; apply app_inv_head in Hout; done.
Qed.

(** X3. When the validator raises on a note, the notes before it having
    been validated, [validate_frontmatter] ends with that exception and
    prints nothing, whatever errors the earlier notes had; the notes after
    it are not asked for and not validated. *)
Theorem validate_frontmatter_validator_raises
    (v : Vault) (w : World) (text : string) (schema : JSON) (V : Validator)
    (before after : list Note) (note : Note) (e : exn) :
  files v !! "schema.json" = Some text ->
  json_loads text = Ok schema ->
  validator_for schema = Ok V ->
  check_schema V schema = Ok tt ->
  notes v = before ++ note :: after ->
  (forall n, n ∈ before ->
     awaiting_triage n = true
     \/ exists found, iter_errors V schema (frontmatter n) = Ok found) ->
  awaiting_triage note = false ->
  iter_errors V schema (frontmatter note) = Raise e ->
  validate_frontmatter v w
  = (mkWorld (stdout w)
       (trace w ++ ReadText "schema.json" :: CheckSchema schema
          :: flat_map
               (fun n =>
                  NextNote n
                  :: (if awaiting_triage n then []
                      else [IterErrors (frontmatter n)]))
               before
          ++ [NextNote note; IterErrors (frontmatter note)]),
     Raise e).
Proof.
  intros Hfile Hloads Hfor Hcheck Hnotes Hbefore Htriage Hraise.
  rewrite (validate_frontmatter_checked v w text schema V) by done.
  rewrite Hnotes, loop_result_app, loop_calls_app.
  rewrite loop_result_entries by (by apply Forall_forall).
  rewrite loop_calls_returns by (by apply Forall_forall).
  cbn [loop_result loop_calls]. unfold note_result, note_calls.
  rewrite Htriage, Hraise. by rewrite app_nil_r.
Qed.

(** X4. [validate_frontmatter] prints all or nothing: either it returns and
    has printed exactly one renderable, the tree or the message, or it ends
    with an exception and has printed nothing. *)
Theorem validate_frontmatter_prints_all_or_nothing (v : Vault) (w : World) :
  (exists r, (validate_frontmatter v w).2 = Ok tt
     /\ stdout (validate_frontmatter v w).1 = stdout w ++ [r]
     /\ ((exists tree, r = RTree tree /\ children tree <> [])
         \/ r = RText "All notes are [green]valid[/green]."))
  \/ (exists e, (validate_frontmatter v w).2 = Raise e
        /\ stdout (validate_frontmatter v w).1 = stdout w).
Proof.
  destruct (files v !! "schema.json") as [text|] eqn:Hfile.
  all: unfold validate_frontmatter, mbind, M_bind, call, lift, read_text, child,
    for_notes; cbn [stdout trace]; rewrite Hfile.
  2:{ right. by eexists. }
  destruct (json_loads text) as [schema|e]; [|right; by eexists].
  destruct (validator_for schema) as [V|e]; [|right; by eexists].
  cbn [stdout trace].
  destruct (check_schema V schema) as [[]|e]; [|right; by eexists].
  rewrite validate_loop. cbn [stdout trace].
  destruct (loop_result V schema (notes v) _) as [[lbl [|c cs]]|e];
    cbn [children]; unfold print; try destruct (renders _);
    cbn [stdout trace fst snd].
  - left. eexists. split; [done|]. split; [done|]. by right.
  - right. by eexists.
  - left. eexists. split; [done|]. split; [done|]. left. by eexists.
  - right. by eexists.
  - right. by eexists.
Qed.

(** X5. On a run in which the validator returns on every note it is asked
    about, [validate_frontmatter] reads [schema.json] once, checks the schema
    once, and then goes through the notes once: the validator is handed the
    frontmatter of every note that is not awaiting triage, once, in traversal
    order, and nothing else. *)
Theorem validate_frontmatter_validates_each_note_once
    (v : Vault) (w : World) (text : string) (schema : JSON) (V : Validator) :
  files v !! "schema.json" = Some text ->
  json_loads text = Ok schema ->
  validator_for schema = Ok V ->
  check_schema V schema = Ok tt ->
  (forall note, note ∈ notes v ->
     awaiting_triage note = true
     \/ exists found, iter_errors V schema (frontmatter note) = Ok found) ->
  exists calls,
    trace (validate_frontmatter v w).1
    = trace w ++ ReadText "schema.json" :: CheckSchema schema :: calls
    /\ omap (fun call =>
               match call with NextNote note => Some note | _ => None end)
         calls
       = notes v
    /\ omap (fun call =>
               match call with IterErrors instance => Some instance | _ => None end)
         calls
       = frontmatter <$> filter (fun note => awaiting_triage note = false) (notes v)
    /\ (forall call, call ∈ calls ->
          (exists note, call = NextNote note)
          \/ exists instance, call = IterErrors instance).
Proof.
  intros Hfile Hloads Hfor Hcheck Hall. exists (calls_for (notes v)).
  rewrite (validate_frontmatter_checked v w text schema V) by done.
  rewrite loop_result_entries by (by apply Forall_forall).
  rewrite loop_calls_returns by (by apply Forall_forall).
  rewrite print_trace. cbn [trace]. split; [done|]. clear. unfold calls_for.
  induction (notes v) as [|x r (IH1 & IH2 & IH3)].
  - split; [done|]. split; [done|]. by intros call ?%elem_of_nil.
  - cbn [flat_map]. rewrite filter_cons.
    assert (note_calls x
            = if awaiting_triage x then [] else [IterErrors (frontmatter x)])
      as -> by done.
    destruct (awaiting_triage x) eqn:E.
    + rewrite decide_False by done. cbn [app omap list_omap].
      rewrite IH1. split; [done|]. split; [done|].
      intros call [->|Hin]%elem_of_cons; [left; by eexists|by apply IH3].
    + rewrite decide_True by done. cbn [app omap list_omap fmap list_fmap].
      rewrite IH1, IH2. split; [done|]. split; [done|].
      intros call [->|[->|Hin]%elem_of_cons]%elem_of_cons;
        [left; by eexists|right; by eexists|by apply IH3].
Qed.

(** X6. When the text of [schema.json] is not JSON, [validate_frontmatter]
    ends with the exception of [json.loads]: the schema is not checked, no
    note is looked at and nothing is printed. *)
Theorem validate_frontmatter_schema_not_json
    (v : Vault) (w : World) (text : string) (e : exn) :
  files v !! "schema.json" = Some text ->
  json_loads text = Raise e ->
  validate_frontmatter v w
  = (mkWorld (stdout w) (trace w ++ [ReadText "schema.json"]), Raise e).
Proof.
  intros Hfile Hloads.
  unfold validate_frontmatter, mbind, M_bind, call, lift, read_text, child.
  cbn [stdout trace]. by rewrite Hfile, Hloads.
Qed.

End report_facts.

(** ** More on [todo], [tags] and [anki] *)

Section listing_facts.
Import py rich jsonschema vault io cli steps reports.
Context `{Markup} `{SetOrder Note}.





(** X7. In a vault where no note carries the tag [todo] or [todo/now], an
    empty vault for one, [todo] still prints the panel "Notes with #todo
    tags", with an empty body, before anything else; what follows it is the
    table of tasks, and the command returns, or ends with [MarkupError] when
    the console cannot render the table. *)
Theorem todo_without_tagged_notes_prints_an_empty_panel (v : Vault) (w : World) :
  (forall note, note ∈ notes v ->
     ("todo" ∉ vault.tags note) /\ ("todo/now" ∉ vault.tags note)) ->
  exists tables,
    stdout (todo v w).1
    = stdout w
      ++ RPanel (mkPanel "" ROUNDED (Some "Notes with #todo tags") "cyan")
      :: tables
    /\ (forall r, r ∈ tables -> exists t, r = RTable t)
    /\ trace (todo v w).1 = trace w ++ (NextNote <$> notes v)
    /\ ((todo v w).2 = Ok tt \/ (todo v w).2 = Raise MarkupError).
Proof.
  intros Hnone. exists (written (todo_table (notes v))). rewrite todo_run.
  assert (todo_listing (notes v) = []) as ->.
  { destruct (todo_listing (notes v)) as [|s l] eqn:E; [done|].
    assert (s ∈ todo_listing (notes v)) as Hs by (rewrite E; left).
    apply todo_listing_elem_of in Hs. destruct Hs as (note & Hin & _ & Htag).
    destruct (Hnone note Hin). tauto. }
  cbn [fst snd stdout trace written outcome].
  rewrite renders_todo_panel.
  rewrite (markup_plain (join newline [])) by done.
  split; [done|]. split; [|split; [done|apply outcome_cases]].
  intros r Hr. apply written_subseteq in Hr. unfold todo_table in Hr.
  destruct (flat_map _ _); [by apply elem_of_nil in Hr|].
  apply list_elem_of_singleton in Hr. eauto.
Qed.


End listing_facts.

Section tags_more.
Import py rich jsonschema vault io cli steps reports.
Context `{Markup}.

(** The items of the counter after the loop of [tags], most common first. *)
Lemma tags_items (v : Vault) :
  let items := most_common (count_tags (notes v) []) in
  printed (tags v)
  = [RTable (mkTable None true tags_columns (tag_row <$> items))]
  /\ NoDup items.*1
  /\ (forall tag count, (tag, count) ∈ items <->
        count = notes_with tag (notes v) /\ 0 < count).
Proof.
  intros items.
  assert (Counter_wf (count_tags (notes v) [])) as Hwf.
  { apply count_tags_wf. split; constructor. }
  assert (items ≡ₚ count_tags (notes v) []) as Hperm
    by apply sorted_Permutation.
  split; [|split].
  - unfold printed. by rewrite tags_run.
  - rewrite Hperm. apply Hwf.
  - intros tag count. rewrite Hperm. split.
    + intros Hin. destruct (Counter_wf_get _ _ _ Hwf Hin) as [Hget Hpos].
      rewrite Counter_get_count_tags in Hget. cbn [Counter_get] in Hget.
      split; [lia|done].
    + intros [-> Hpos].
      assert (tag ∈ (count_tags (notes v) []).*1) as Hkey.
      { apply (Counter_wf_keys _ _ Hwf). by rewrite Counter_get_count_tags. }
      apply list_elem_of_fmap in Hkey. destruct Hkey as ([k n] & -> & Hin).
      destruct (Counter_wf_get _ _ _ Hwf Hin) as [Hget _].
      rewrite Counter_get_count_tags in Hget. cbn [Counter_get fst] in *.
      simpl in Hget. by subst n.
Qed.

Lemma notes_with_Permutation (tag : string) (l1 l2 : list Note) :
  l1 ≡ₚ l2 -> notes_with tag l1 = notes_with tag l2.
Proof. intros Hperm. unfold notes_with. by rewrite Hperm. Qed.

Lemma NoDup_fst {A B} (l : list (A * B)) : NoDup l.*1 -> NoDup l.
Proof. apply NoDup_fmap_1. Qed.

(** X12. The counts [tags] shows are bounded: every row has a count of at
    least 1 and at most the number of notes, and the table has as many rows
    as there are distinct tags in the vault, none for an empty vault. *)
Theorem tags_counts_are_bounded (v : Vault) :
  exists items : list (string * nat),
    printed (tags v)
    = [RTable (mkTable None true
                 [mkColumn "Tag" "bold cyan" "left";
                  mkColumn "Note Count" "yellow" "right"]
                 ((fun item => [CellStr item.1; CellStr (str_int item.2)])
                    <$> items))]
    /\ (forall tag count, (tag, count) ∈ items ->
          1 <= count <= length (notes v))
    /\ length items = size (⋃ (vault.tags <$> notes v)).
Proof.
  destruct (tags_items v) as (Hout & Hnd & Hitems).
  exists (most_common (count_tags (notes v) [])).
  split; [exact Hout|]. split.
  - intros tag count [-> Hpos]%Hitems. split; [lia|].
    unfold notes_with. apply length_filter.
  - rewrite <- (length_fmap fst). unfold size, set_size. cbn.
    apply Permutation_length. apply NoDup_Permutation.
    + exact Hnd.
    + apply NoDup_elements.
    + intros tag. rewrite elem_of_elements, elem_of_union_list. split.
      * intros ([t c] & -> & Hin)%list_elem_of_fmap.
        apply Hitems in Hin. destruct Hin as [-> Hpos].
        apply notes_with_pos in Hpos. destruct Hpos as (note & Hnote & Htag).
        exists (vault.tags note). split; [|done].
        apply list_elem_of_fmap. by exists note.
      * intros (X & HX & Htag). apply list_elem_of_fmap in HX.
        destruct HX as (note & -> & Hnote).
        apply list_elem_of_fmap. exists (tag, notes_with tag (notes v)).
        split; [done|]. apply Hitems. split; [done|].
        apply notes_with_pos. by exists note.
Qed.

Lemma sum_Counter_incr (c : Counter) (elem : string) :
  sum_list_with snd (Counter_incr c elem) = S (sum_list_with snd c).
Proof.
  induction c as [|[k n] r IH]; cbn [Counter_incr sum_list_with]; [done|].
  destruct (String.eqb k elem); cbn [sum_list_with snd]; [lia|].
  rewrite IH. lia.
Qed.

Lemma sum_Counter_update (c : Counter) (l : list string) :
  sum_list_with snd (Counter_update c l) = sum_list_with snd c + length l.
Proof.
  unfold Counter_update. revert c. induction l as [|x r IH]; intros c.
  - simpl. lia.
  - cbn [fold_left length]. rewrite IH, sum_Counter_incr. lia.
Qed.

Lemma sum_count_tags (l : list Note) (c : Counter) :
  sum_list_with snd (count_tags l c)
  = sum_list_with snd c + sum_list_with (fun note => size (vault.tags note)) l.
Proof.
  unfold count_tags. revert c. induction l as [|x r IH]; intros c.
  - simpl. lia.
  - cbn [fold_left sum_list_with]. rewrite IH, sum_Counter_update.
    unfold size at 2, set_size. cbn. lia.
Qed.

(** X13. No tag is lost or counted twice: the counts of the table add up to
    the number of tags of the notes, each note counted with the size of its
    set of tags. *)
Theorem tags_counts_add_up (v : Vault) :
  exists items : list (string * nat),
    printed (tags v)
    = [RTable (mkTable None true
                 [mkColumn "Tag" "bold cyan" "left";
                  mkColumn "Note Count" "yellow" "right"]
                 ((fun item => [CellStr item.1; CellStr (str_int item.2)])
                    <$> items))]
    /\ sum_list_with snd items
       = sum_list_with (fun note => size (vault.tags note)) (notes v).
Proof.
  destruct (tags_items v) as (Hout & _).
  exists (most_common (count_tags (notes v) [])).
  split; [exact Hout|].
  assert (most_common (count_tags (notes v) []) ≡ₚ count_tags (notes v) [])
    as -> by apply sorted_Permutation.
  rewrite sum_count_tags. done.
Qed.

(** X14. The rows of [tags] do not depend on the traversal, up to their
    order: two traversals that yield the same notes in different orders give
    the same rows, with the same counts. *)
Theorem tags_rows_independent_of_traversal_order (v1 v2 : Vault) :
  notes v1 ≡ₚ notes v2 ->
  table_rows (printed (tags v1)) ≡ₚ table_rows (printed (tags v2)).
Proof.
  intros Hperm.
  destruct (tags_items v1) as (-> & Hnd1 & Hitems1).
  destruct (tags_items v2) as (-> & Hnd2 & Hitems2).
  unfold table_rows. cbn [flat_map rows]. rewrite !app_nil_r.
  apply fmap_Permutation. apply NoDup_Permutation.
  - by apply NoDup_fst.
  - by apply NoDup_fst.
  - intros [tag count]. rewrite Hitems1, Hitems2.
    by rewrite (notes_with_Permutation tag _ _ Hperm).
Qed.


End tags_more.

Section tags_ties.
Import py rich jsonschema vault io cli steps reports.
Context `{Markup}.

Lemma Counter_incr_keys_app (c : Counter) (elem : string) :
  exists extra, (Counter_incr c elem).*1 = c.*1 ++ extra.
Proof.
  induction c as [|[k n] r [extra IH]]; cbn [Counter_incr].
  - by exists [elem].
  - destruct (String.eqb k elem); cbn [fmap list_fmap fst].
    + exists []. by rewrite app_nil_r.
    + exists extra. by rewrite IH.
Qed.

Lemma Counter_update_keys_app (c : Counter) (l : list string) :
  exists extra, (Counter_update c l).*1 = c.*1 ++ extra.
Proof.
  unfold Counter_update. revert c. induction l as [|x r IH]; intros c.
  - exists []. by rewrite app_nil_r.
  - cbn [fold_left]. destruct (IH (Counter_incr c x)) as [extra ->].
    destruct (Counter_incr_keys_app c x) as [extra' ->].
    exists (extra' ++ extra). by rewrite app_assoc.
Qed.

Lemma count_tags_keys_app (l : list Note) (c : Counter) :
  exists extra, (count_tags l c).*1 = c.*1 ++ extra.
Proof.
  unfold count_tags. revert c. induction l as [|x r IH]; intros c.
  - exists []. by rewrite app_nil_r.
  - cbn [fold_left].
    destruct (IH (Counter_update c (elements (vault.tags x)))) as [extra ->].
    destruct (Counter_update_keys_app c (elements (vault.tags x)))
      as [extra' ->].
    exists (extra' ++ extra). by rewrite app_assoc.
Qed.

Lemma precedes_fst {A B} (a1 a2 : A) (l : list (A * B)) :
  precedes a1 a2 l.*1 -> exists b1 b2, precedes (a1, b1) (a2, b2) l.
Proof.
  intros (k1 & k2 & k3 & Heq).
  apply fmap_app_inv in Heq. destruct Heq as (l1 & r1 & -> & Hr1 & ->).
  symmetry in Hr1.
  apply fmap_cons_inv in Hr1. destruct Hr1 as ([x1 b1] & r2 & Hx1 & Hr2 & ->).
  symmetry in Hr2.
  apply fmap_app_inv in Hr2. destruct Hr2 as (l2 & r3 & -> & Hr3 & ->).
  symmetry in Hr3.
  apply fmap_cons_inv in Hr3. destruct Hr3 as ([x2 b2] & l3 & Hx2 & -> & ->).
  cbn [fst] in *. subst. exists b1, b2. by exists l1, l2, l3.
Qed.

Lemma precedes_filter_2 {A} (P : A -> bool) (x y : A) (l : list A) :
  precedes x y l -> P x = true -> P y = true ->
  precedes x y (List.filter P l).
Proof.
  intros (l1 & l2 & l3 & ->) Hx Hy.
  exists (List.filter P l1), (List.filter P l2), (List.filter P l3).
  rewrite List.filter_app. cbn [List.filter]. rewrite Hx.
  rewrite List.filter_app. cbn [List.filter]. by rewrite Hy.
Qed.

Lemma precedes_cons {A} (a x y : A) (l : list A) :
  precedes x y l -> precedes x y (a :: l).
Proof. intros (l1 & l2 & l3 & ->). by exists (a :: l1), l2, l3. Qed.

Lemma precedes_filter_1 {A} (P : A -> bool) (x y : A) (l : list A) :
  precedes x y (List.filter P l) -> precedes x y l.
Proof.
  induction l as [|a r IH]; cbn [List.filter].
  - intros (l1 & l2 & l3 & Heq). by destruct l1.
  - destruct (P a); [|intros Hr; by apply precedes_cons, IH].
    intros (l1 & l2 & l3 & Heq). destruct l1 as [|b l1].
    + cbn [app] in Heq. injection Heq as <- Hr.
      assert (In y (List.filter P r)) as Hy.
      { rewrite Hr. apply in_or_app. right. by left. }
      apply filter_In in Hy. destruct Hy as [Hy _].
      apply in_split in Hy. destruct Hy as (r1 & r2 & ->).
      by exists [], r1, r2.
    + cbn [app] in Heq. injection Heq as <- Hr.
      apply precedes_cons, IH. by exists l1, l2, l3.
Qed.

(** X16. Rows of equal count keep the order in which their tags were first
    met: a tag that occurs among the first notes of the traversal is listed
    before a tag of the same count that does not occur among them. *)
Theorem tags_ties_in_first_seen_order (v : Vault) (before after : list Note)
    (tag1 tag2 : string) (count : nat) :
  notes v = before ++ after ->
  (exists note, note ∈ before /\ tag1 ∈ vault.tags note) ->
  (forall note, note ∈ before -> tag2 ∉ vault.tags note) ->
  exists items : list (string * nat),
    printed (tags v)
    = [RTable (mkTable None true
                 [mkColumn "Tag" "bold cyan" "left";
                  mkColumn "Note Count" "yellow" "right"]
                 ((fun item => [CellStr item.1; CellStr (str_int item.2)])
                    <$> items))]
    /\ ((tag1, count) ∈ items -> (tag2, count) ∈ items ->
        precedes (tag1, count) (tag2, count) items).
Proof.
  intros Hnotes Hseen Hunseen.
  exists (most_common (count_tags (notes v) [])).
  split; [unfold printed; by rewrite tags_run|].
  intros H1 H2.
  assert (Counter_wf (count_tags (notes v) [])) as Hwf.
  { apply count_tags_wf. split; constructor. }
  assert (Counter_wf (count_tags before [])) as Hwf0.
  { apply count_tags_wf. split; constructor. }
  assert (most_common (count_tags (notes v) []) ≡ₚ count_tags (notes v) [])
    as Hperm by apply sorted_Permutation.
  rewrite Hperm in H1, H2.
  (* the keys of the counter: those of the first notes, then the others *)
  assert (count_tags (notes v) [] = count_tags after (count_tags before []))
    as Hsplit.
  { rewrite Hnotes. unfold count_tags. by rewrite fold_left_app. }
  destruct (count_tags_keys_app after (count_tags before [])) as [extra Hkeys].
  rewrite <- Hsplit in Hkeys.
  assert (tag1 ∈ (count_tags before []).*1) as Hk1.
  { apply (Counter_wf_keys _ _ Hwf0). rewrite Counter_get_count_tags.
    cbn [Counter_get]. by apply notes_with_pos. }
  assert (tag2 ∉ (count_tags before []).*1) as Hk2.
  { rewrite (Counter_wf_keys _ _ Hwf0), Counter_get_count_tags.
    cbn [Counter_get Nat.add]. rewrite notes_with_pos.
    intros (note & Hin & Htag). by destruct (Hunseen note Hin). }
  assert (tag2 ∈ extra) as Hx2.
  { assert (tag2 ∈ (count_tags (notes v) []).*1) as Hin.
    { apply list_elem_of_fmap. by exists (tag2, count). }
    rewrite Hkeys in Hin. apply elem_of_app in Hin. by destruct Hin. }
  assert (precedes tag1 tag2 (count_tags (notes v) []).*1) as Hprec.
  { rewrite Hkeys.
    apply list_elem_of_split in Hk1. destruct Hk1 as (a & b & ->).
    apply list_elem_of_split in Hx2. destruct Hx2 as (c & d & ->).
    exists a, (b ++ c), d. by rewrite <- !app_assoc. }
  apply precedes_fst in Hprec. destruct Hprec as (n1 & n2 & Hprec).
  assert (n1 = count /\ n2 = count) as [-> ->].
  { destruct Hprec as (l1 & l2 & l3 & Heq).
    assert ((tag1, n1) ∈ count_tags (notes v) []) as Hn1.
    { rewrite Heq. apply elem_of_app. right. left. }
    assert ((tag2, n2) ∈ count_tags (notes v) []) as Hn2.
    { rewrite Heq. apply elem_of_app. right. right.
      apply elem_of_app. right. left. }
    destruct (Counter_wf_get _ _ _ Hwf Hn1) as [<- _].
    destruct (Counter_wf_get _ _ _ Hwf Hn2) as [<- _].
    destruct (Counter_wf_get _ _ _ Hwf H1) as [<- _].
    destruct (Counter_wf_get _ _ _ Hwf H2) as [<- _]. done. }
  (* the stable sort keeps that order among the items of one count *)
  apply (precedes_filter_1 (same_key snd count)).
  unfold most_common. rewrite (sorted_stable snd true count).
  apply precedes_filter_2; [done|..]; by apply same_key_eq.
Qed.

End tags_ties.

(** ** More runs on the example vaults *)

Section more_witnesses.
Import py rich jsonschema vault io cli steps reports example example_runs.

Lemma example_validator_returns (v : Vault) :
  forall note, note ∈ notes v ->
    awaiting_triage note = true
    \/ exists found,
         iter_errors (Collaborators:=collaborators) tt schema (frontmatter note)
         = Ok found.
Proof. intros note _. right. by eexists. Defined.

Lemma validate_frontmatter_prints_one_entry_per_invalid_note_witness :
  files the_vault !! "schema.json" = Some schema_text
  /\ json_loads schema_text = Ok schema
  /\ (validate_frontmatter the_vault World_empty).2 = Ok tt
  /\ stdout (validate_frontmatter the_vault World_empty).1
     = [RTree
          (Node "[red]Invalid Notes[/red]"
             [Node "projects/garden.md"
                [Node "'name' is a required property" [];
                 Node "'maybe' is not one of ['todo', 'doing', 'done']" []]])].
Proof.
  split; [reflexivity|]. split; [reflexivity|].
  destruct (validate_frontmatter_prints_one_entry_per_invalid_note
              (H:=collaborators) the_vault World_empty schema_text schema tt)
    as (Hrenders & _); try reflexivity.
  { apply example_validator_returns. }
  apply Hrenders. reflexivity.
Defined.

Lemma validate_frontmatter_all_valid_iff_witness :
  files tidy_vault !! "schema.json" = Some schema_text
  /\ json_loads schema_text = Ok schema
  /\ (stdout (validate_frontmatter tidy_vault World_empty).1
      = [RText "All notes are [green]valid[/green]."]
      <-> forall note, note ∈ notes tidy_vault ->
            awaiting_triage note = true
            \/ iter_errors (Collaborators:=collaborators) tt schema
                 (frontmatter note) = Ok []).
Proof.
  split; [reflexivity|]. split; [reflexivity|].
  apply (validate_frontmatter_all_valid_iff
           (H:=collaborators) tidy_vault World_empty schema_text schema tt);
    try reflexivity.
  apply example_validator_returns.
Defined.

Lemma validate_frontmatter_validator_raises_witness :
  files link_vault !! "schema.json" = Some link_schema_text
  /\ notes link_vault = [recipe] ++ linked :: [garden]
  /\ iter_errors (Collaborators:=link_collaborators) tt link_schema
       (frontmatter linked)
     = Raise (OtherError "Unresolvable: missing.json")
  /\ validate_frontmatter (H:=link_collaborators) link_vault World_empty
     = (mkWorld []
          [ReadText "schema.json"; CheckSchema link_schema;
           NextNote recipe; IterErrors (frontmatter recipe);
           NextNote linked; IterErrors (frontmatter linked)],
        Raise (OtherError "Unresolvable: missing.json")).
Proof.
  split; [reflexivity|]. split; [reflexivity|]. split; [reflexivity|].
  apply (validate_frontmatter_validator_raises
           (H:=link_collaborators) link_vault World_empty link_schema_text
           link_schema tt [recipe] [garden] linked
           (OtherError "Unresolvable: missing.json")); try reflexivity.
  intros n Hn. right. apply list_elem_of_singleton in Hn. subst n.
  by exists [].
Defined.

Lemma validate_frontmatter_validates_each_note_once_witness :
  files the_vault !! "schema.json" = Some schema_text
  /\ json_loads schema_text = Ok schema
  /\ exists calls,
       trace (validate_frontmatter the_vault World_empty).1
       = ReadText "schema.json" :: CheckSchema schema :: calls
       /\ omap (fun call =>
                  match call with
                  | IterErrors instance => Some instance
                  | _ => None
                  end)
            calls
          = frontmatter <$> [garden; recipe; flashcards; reading].
Proof.
  split; [reflexivity|]. split; [reflexivity|].
  destruct (validate_frontmatter_validates_each_note_once
              (H:=collaborators) the_vault World_empty schema_text schema tt)
    as (calls & Htrace & _ & Hiter & _); try reflexivity.
  { apply example_validator_returns. }
  exists calls. split; [exact Htrace|exact Hiter].
Defined.

Lemma validate_frontmatter_schema_not_json_witness :
  files garbled_vault !! "schema.json" = Some "{"
  /\ json_loads "{" = Raise (JSONDecodeError "Expecting value")
  /\ validate_frontmatter garbled_vault World_empty
     = (mkWorld [] [ReadText "schema.json"],
        Raise (JSONDecodeError "Expecting value")).
Proof.
  split; [reflexivity|]. split; [reflexivity|].
  apply (validate_frontmatter_schema_not_json (H:=collaborators) garbled_vault
           World_empty "{" (JSONDecodeError "Expecting value")); reflexivity.
Defined.

Lemma idle_vault_has_no_todo_tags :
  forall note, note ∈ notes idle_vault ->
    ("todo" ∉ vault.tags note) /\ ("todo/now" ∉ vault.tags note).
Proof.
  intros note Hin.
  repeat (apply elem_of_cons in Hin; destruct Hin as [->|Hin]);
    [..|by apply elem_of_nil in Hin];
    split; apply (bool_decide_unpack _); by vm_compute.
Defined.

Lemma todo_without_tagged_notes_prints_an_empty_panel_witness :
  (forall note, note ∈ notes idle_vault ->
     ("todo" ∉ vault.tags note) /\ ("todo/now" ∉ vault.tags note))
  /\ exists tables,
       printed (todo idle_vault)
       = RPanel (mkPanel "" ROUNDED (Some "Notes with #todo tags") "cyan")
         :: tables.
Proof.
  split; [exact idle_vault_has_no_todo_tags|].
  destruct (todo_without_tagged_notes_prints_an_empty_panel idle_vault
              World_empty idle_vault_has_no_todo_tags) as (tables & Hrun & _).
  exists tables. exact Hrun.
Defined.

Lemma tags_rows_independent_of_traversal_order_witness :
  notes the_vault ≡ₚ notes the_vault_reversed
  /\ table_rows (printed (tags the_vault))
     ≡ₚ table_rows (printed (tags the_vault_reversed)).
Proof.
  split; [apply Permutation_rev|].
  apply (tags_rows_independent_of_traversal_order the_vault the_vault_reversed).
  apply Permutation_rev.
Defined.

Lemma tags_ties_in_first_seen_order_witness :
  notes the_vault = [garden] ++ [inbox; recipe; flashcards; reading]
  /\ (exists note, note ∈ [garden] /\ "todo" ∈ vault.tags note)
  /\ (forall note, note ∈ [garden] -> "idea" ∉ vault.tags note)
  /\ exists items : list (string * nat),
       printed (tags the_vault)
       = [RTable (mkTable None true
                    [mkColumn "Tag" "bold cyan" "left";
                     mkColumn "Note Count" "yellow" "right"]
                    ((fun item => [CellStr item.1; CellStr (str_int item.2)])
                       <$> items))]
       /\ (("todo", 1) ∈ items -> ("idea", 1) ∈ items ->
           precedes ("todo", 1) ("idea", 1) items).
Proof.
  assert (exists note, note ∈ [garden] /\ "todo" ∈ vault.tags note) as Hseen.
  { exists garden. split; [left|]. apply (bool_decide_unpack _). by vm_compute. }
  assert (forall note, note ∈ [garden] -> "idea" ∉ vault.tags note) as Hunseen.
  { intros note ->%list_elem_of_singleton.
    apply (bool_decide_unpack _). by vm_compute. }
  split; [reflexivity|]. split; [exact Hseen|]. split; [exact Hunseen|].
  apply (tags_ties_in_first_seen_order the_vault [garden]
           [inbox; recipe; flashcards; reading] "todo" "idea" 1);
    [reflexivity|exact Hseen|exact Hunseen].
Defined.

(** Texts that are no markup.  The panel of [todo] lists a file name with a
    closing tag in it: nothing is printed.  A line of a task has one: the
    panel is printed and the table is not.  An error of the validator quotes
    a value with one: the report is not printed. *)

Example todo_on_the_bracket_vault :
  todo bracket_vault World_empty
  = (mkWorld [] [NextNote flashcards; NextNote bracketed; NextNote recipe],
     Raise MarkupError).
Proof. by vm_compute. Qed.

Example todo_on_the_margin_vault :
  todo margin_vault World_empty
  = (mkWorld
       [RPanel (mkPanel "" ROUNDED (Some "Notes with #todo tags") "cyan")]
       [NextNote recipe; NextNote margin],
     Raise MarkupError).
Proof. by vm_compute. Qed.

Example validate_frontmatter_on_the_margin_vault :
  validate_frontmatter margin_vault World_empty
  = (mkWorld []
       [ReadText "schema.json"; CheckSchema schema;
        NextNote recipe; IterErrors (frontmatter recipe);
        NextNote margin; IterErrors (frontmatter margin)],
     Raise MarkupError).
Proof. by vm_compute. Qed.

(** The valid notes, and the option [--vault] in an environment. *)

Example validate_frontmatter_on_the_tidy_vault :
  printed (validate_frontmatter tidy_vault)
  = [RText "All notes are [green]valid[/green]."].
Proof. by vm_compute. Qed.

Example default_vault_in_an_environment :
  options.default_vault empty_vault_at {[ "OBSIDIAN_VAULT" := "notes" ]}
  = empty_vault_at "notes"
  /\ options.default_vault empty_vault_at ∅ = empty_vault_at "."
  /\ options.default_vault empty_vault_at {[ "OBSIDIAN_VAULT" := "" ]}
     = empty_vault_at "".
Proof. by vm_compute. Qed.

End more_witnesses.
